(** * solsa: layer registry, image-rewrite resolver and configuration loader

    A shallow embedding of [bin/solsa.js]: the string primitives the
    resolver relies on, [finalizeImageRenames] (as a pure function and as a
    program over an explicit object store), the [SolsaArchiver] layer
    registry with [finalize], the classification loop of [yamlCommand], and
    [init]. *)

From Stdlib Require Import ZArith Ascii.
From stdpp Require Import gmap strings list fin_maps.

Local Open Scope Z_scope.

(** ** JavaScript string primitives

    Strings are sequences of characters; the code only ever searches for
    the two characters ['/'] and [':']. *)

Module JsString.

Fixpoint len (s : string) : nat :=
  match s with
  | EmptyString => O
  | String _ s' => S (len s')
  end.

Fixpoint takeS (n : nat) (s : string) : string :=
  match n, s with
  | S n', String a s' => String a (takeS n' s')
  | _, _ => EmptyString
  end.

Fixpoint dropS (n : nat) (s : string) : string :=
  match n, s with
  | S n', String _ s' => dropS n' s'
  | _, _ => s
  end.

(** [s.includes(c)] for a one-character search string. *)
Fixpoint includes (s : string) (c : ascii) : bool :=
  match s with
  | EmptyString => false
  | String a s' => if Ascii.eqb a c then true else includes s' c
  end.

(** The scan behind [s.indexOf(c, from)]: [skip] characters are passed
    over, [i] is the index of the head of [s] in the whole string. *)
Fixpoint indexOfFrom (c : ascii) (s : string) (skip : nat) (i : Z) : Z :=
  match s with
  | EmptyString => -1
  | String a s' =>
      match skip with
      | O => if Ascii.eqb a c then i else indexOfFrom c s' O (i + 1)
      | S k => indexOfFrom c s' k (i + 1)
      end
  end.

(** [s.indexOf(c, from)]: a negative [from] counts as 0, the result is
    -1 when [c] does not occur at or after [from]. *)
Definition indexOf (s : string) (c : ascii) (from : Z) : Z :=
  indexOfFrom c s (Z.to_nat from) 0.

(** The scan behind [s.lastIndexOf(c)]: [best] is the last match so far. *)
Fixpoint lastIndexOfFrom (c : ascii) (s : string) (i best : Z) : Z :=
  match s with
  | EmptyString => best
  | String a s' =>
      lastIndexOfFrom c s' (i + 1) (if Ascii.eqb a c then i else best)
  end.

Definition lastIndexOf (s : string) (c : ascii) : Z :=
  lastIndexOfFrom c s 0 (-1).

Definition clampIndex (s : string) (z : Z) : nat :=
  Z.to_nat (Z.min (Z.max 0 z) (Z.of_nat (len s))).

(** [s.substring(a, b)]: both ends are clamped to the string and swapped
    when out of order. *)
Definition substring (s : string) (a b : Z) : string :=
  let a' := clampIndex s a in
  let b' := clampIndex s b in
  takeS (Nat.max a' b' - Nat.min a' b') (dropS (Nat.min a' b') s).

(** [s.substring(a)]. *)
Definition substringFrom (s : string) (a : Z) : string :=
  substring s a (Z.of_nat (len s)).

(** A JavaScript string is truthy unless it is empty. *)
Definition truthy (s : string) : bool :=
  match s with
  | EmptyString => false
  | String _ _ => true
  end.

(** An optional (possibly [undefined]) string in a condition. *)
Definition truthyOpt (o : option string) : bool :=
  match o with
  | Some s => truthy s
  | None => false
  end.

End JsString.

Import JsString.

Definition slash : ascii := "/"%char.
Definition colon : ascii := ":"%char.

(** ** The image-reference split (lines 168-170 of [finalizeImageRenames],
    repeated in [rename]) *)

Definition tagPos (name : string) : Z :=
  indexOf name colon (indexOf name slash 0).

(** [newName], the repository part. *)
Definition repoPart (name : string) : string :=
  let pos := tagPos name in
  if pos =? -1 then name else substring name 0 pos.

(** [newTag], [None] standing for [undefined]. *)
Definition tagPart (name : string) : option string :=
  let pos := tagPos name in
  if pos =? -1 then None else Some (substringFrom name (pos + 1)).

Definition splitRef (name : string) : string * option string :=
  (repoPart name, tagPart name).

(** The split as the specification words it: at the last colon located
    after the last path separator; no tag when there is no such colon. *)
Definition splitLastColonAfterLastSlash (name : string)
  : string * option string :=
  let sl := lastIndexOf name slash in
  let pos := lastIndexOf name colon in
  if (pos =? -1) || (pos <? sl) then (name, None)
  else (substring name 0 pos, Some (substringFrom name (pos + 1))).

(** ** Image rules and contexts (the entries of [config.contexts]) *)

Module ImageRule.
Record t : Type := mk
  { name : string;
    newName : option string;
    newTag : option string }.

Definition withNewName (k : t) (v : string) : t :=
  {| name := name k; newName := Some v; newTag := newTag k |}.

Definition withNewTag (k : t) (v : string) : t :=
  {| name := name k; newName := newName k; newTag := Some v |}.
End ImageRule.

Module Context.
Record t : Type := mk
  { name : string;
    registry : option string;
    imageTag : option string;
    images : option (list ImageRule.t) }.
End Context.

(** ** [finalizeImageRenames] as a function of the context and of the
    sequence [app.getImages()] *)

(** [x.find(p)] in a condition: the element found is an object, hence
    truthy; [undefined] is not. *)
Definition found {A : Type} (o : option A) : bool :=
  match o with
  | Some _ => true
  | None => false
  end.

(** Line 171: [context.images && context.images.find(...)]. *)
Definition alreadyKustomized (context : Context.t) (name : string) : bool :=
  match Context.images context with
  | Some rules =>
      found (List.find
               (fun image =>
                  String.eqb (ImageRule.name image) name
                  || String.eqb (ImageRule.name image) (repoPart name))
               rules)
  | None => false
  end.

(** Line 172: [images.find(image => image.name === name)]. *)
Definition alreadyEncountered (images : list ImageRule.t) (name : string)
  : bool :=
  found (List.find (fun image => String.eqb (ImageRule.name image) name)
           images).

(** Lines 173-174: the candidate rule [k]. *)
Definition candidate (context : Context.t) (name : string) : ImageRule.t :=
  let k := ImageRule.mk name None None in
  match Context.registry context with
  | Some registry =>
      if truthy registry && negb (includes name slash)
      then ImageRule.withNewName k (registry +:+ "/" +:+ repoPart name)
      else k
  | None => k
  end.

(** Line 178: the default tag given to an untagged image. *)
Definition applyImageTag (context : Context.t) (k : ImageRule.t)
  : ImageRule.t :=
  match Context.imageTag context with
  | Some imageTag =>
      if truthy imageTag then ImageRule.withNewTag k imageTag else k
  | None => k
  end.

(** One iteration of the loop of lines 167-181 on the local array
    [images]: [unshift] is a cons, [push] appends. *)
Definition renameStep (context : Context.t) (images : list ImageRule.t)
  (name : string) : list ImageRule.t :=
  if alreadyKustomized context name then images
  else if alreadyEncountered images name then images
  else
    let k := candidate context name in
    if truthyOpt (tagPart name) then k :: images
    else images ++ [applyImageTag context k].

(** The array [images] when the loop ends. *)
Definition derivedImages (context : Context.t) (appImages : list string)
  : list ImageRule.t :=
  fold_left (renameStep context) appImages [].

(** [context.images || []]. *)
Definition explicitImages (context : Context.t) : list ImageRule.t :=
  match Context.images context with
  | Some rules => rules
  | None => []
  end.

Definition finalizeImageRenames (context : Context.t) (appImages : list string)
  : list ImageRule.t :=
  explicitImages context ++ derivedImages context appImages.

(** The rule a reference gives rise to when it is neither overridden nor
    a repetition. *)
Definition derivedRule (context : Context.t) (name : string) : ImageRule.t :=
  if truthyOpt (tagPart name) then candidate context name
  else applyImageTag context (candidate context name).

(** A reference carries a tag when the text after the split colon is a
    non-empty string: this is the test of line 175. *)
Definition carriesTag (name : string) : bool := truthyOpt (tagPart name).

(** A context declares an optional setting when the field holds a
    non-empty string: the tests of lines 174 and 178. *)
Definition declares (o : option string) : bool := truthyOpt o.

(** What a derived rule looks like, relative to the sequence it comes
    from: it is the rule of its own name, the name is a declared reference
    without an override, and [tag] tells whether that reference carries a
    tag. *)
Definition derivedFrom (context : Context.t) (l : list string) (tag : bool)
  (k : ImageRule.t) : Prop :=
  k = derivedRule context (ImageRule.name k)
  /\ ImageRule.name k ∈ l
  /\ alreadyKustomized context (ImageRule.name k) = false
  /\ carriesTag (ImageRule.name k) = tag.

Definition dev : Context.t :=
  Context.mk "dev" (Some "reg.example.com") None None.
Definition prod : Context.t :=
  Context.mk "prod" None (Some "v2") None.
Definition c1 : Context.t :=
  Context.mk "c1" None None
    (Some [ImageRule.mk "myservice" (Some "other/myservice") None]).


(** ** [finalizeImageRenames] over an object store

    The same method with its objects made explicit: contexts, rule objects
    and arrays live in a store and are passed by reference, [images.unshift],
    [images.push] and [k.newName = ...] are writes, [{ name }], [[]] and
    [concat] allocate.  A computation yields [None] where the JavaScript
    would raise a [TypeError] (a reference that does not hold an object of
    the kind the code expects). *)

Module Heap.

Definition loc : Type := positive.

Record ContextObj : Type := mkContext
  { name : string;
    registry : option string;
    imageTag : option string;
    images : option loc }.

Inductive object : Type :=
| Rule (k : ImageRule.t)
| Array (elems : list loc)
| Ctx (c : ContextObj).

Definition run (A : Type) : Type :=
  gmap loc object -> option (A * gmap loc object).

Definition ret {A : Type} (a : A) : run A := fun σ => Some (a, σ).

Definition bind {A B : Type} (m : run A) (f : A -> run B) : run B :=
  fun σ =>
    match m σ with
    | Some (a, σ') => f a σ'
    | None => None
    end.

Notation "'let!' x ':=' m 'in' k" := (bind m (fun x => k))
  (at level 10, x name, m at level 100, k at level 200).

Notation "m ';;' k" := (bind m (fun _ => k))
  (at level 100, k at level 200, right associativity).

(** A new object gets a reference that is not in use. *)
Definition alloc (o : object) : run loc :=
  fun σ => let l := fresh (dom σ) in Some (l, <[l := o]> σ).

Definition getRule (l : loc) : run ImageRule.t :=
  fun σ =>
    match σ !! l with
    | Some (Rule k) => Some (k, σ)
    | _ => None
    end.

Definition setRule (l : loc) (f : ImageRule.t -> ImageRule.t) : run unit :=
  fun σ =>
    match σ !! l with
    | Some (Rule k) => Some (tt, <[l := Rule (f k)]> σ)
    | _ => None
    end.

Definition getArray (l : loc) : run (list loc) :=
  fun σ =>
    match σ !! l with
    | Some (Array elems) => Some (elems, σ)
    | _ => None
    end.

Definition setArray (l : loc) (f : list loc -> list loc) : run unit :=
  fun σ =>
    match σ !! l with
    | Some (Array elems) => Some (tt, <[l := Array (f elems)]> σ)
    | _ => None
    end.

Definition getContext (l : loc) : run ContextObj :=
  fun σ =>
    match σ !! l with
    | Some (Ctx c) => Some (c, σ)
    | _ => None
    end.

(** [a.unshift(k)], [a.push(k)] and [a.concat(b)]. *)
Definition unshift (a k : loc) : run unit := setArray a (cons k).

Definition push (a k : loc) : run unit :=
  setArray a (fun elems => elems ++ [k]).

Definition concat (a b : loc) : run loc :=
  let! ea := getArray a in
  let! eb := getArray b in
  alloc (Array (ea ++ eb)).

(** [a.find(p)] for a predicate that reads the rule it is given. *)
Fixpoint findIn (p : ImageRule.t -> bool) (elems : list loc)
  : run (option loc) :=
  match elems with
  | [] => ret None
  | l :: rest =>
      let! image := getRule l in
      if p image then ret (Some l) else findIn p rest
  end.

Definition find (a : loc) (p : ImageRule.t -> bool) : run (option loc) :=
  let! elems := getArray a in
  findIn p elems.

(** [for (let x of xs) body]. *)
Fixpoint forEach {A : Type} (xs : list A) (body : A -> run unit) : run unit :=
  match xs with
  | [] => ret tt
  | x :: rest => body x;; forEach rest body
  end.

(** The body of the loop of lines 167-181; [ret tt] where the source
    has [continue]. *)
Definition renameBody (context images : loc) (name : string) : run unit :=
  let newName := repoPart name in
  let newTag := tagPart name in
  let! c := getContext context in
  let! kustomized :=
    match Heap.images c with
    | Some explicit =>
        find explicit
          (fun image =>
             String.eqb (ImageRule.name image) name
             || String.eqb (ImageRule.name image) newName)
    | None => ret None
    end in
  if found kustomized then ret tt
  else
    let! encountered :=
      find images (fun image => String.eqb (ImageRule.name image) name) in
    if found encountered then ret tt
    else
      let! k := alloc (Rule (ImageRule.mk name None None)) in
      let! c := getContext context in
      match Heap.registry c with
      | Some registry =>
          if truthy registry && negb (includes name slash)
          then setRule k
                 (fun r => ImageRule.withNewName r
                             (registry +:+ "/" +:+ newName))
          else ret tt
      | None => ret tt
      end;;
      if truthyOpt newTag then unshift images k
      else
        let! c := getContext context in
        match Heap.imageTag c with
        | Some imageTag =>
            if truthy imageTag
            then setRule k (fun r => ImageRule.withNewTag r imageTag)
            else ret tt
        | None => ret tt
        end;;
        push images k.

Definition finalizeImageRenames (context : loc) (appImages : list string)
  : run loc :=
  let! images := alloc (Array []) in
  forEach appImages (renameBody context images);;
  let! c := getContext context in
  let! explicit :=
    match Heap.images c with
    | Some explicit => ret explicit
    | None => alloc (Array [])
    end in
  concat explicit images.

(** *** Reading the store back *)

Definition ruleAt (σ : gmap loc object) (l : loc) : option ImageRule.t :=
  match σ !! l with
  | Some (Rule k) => Some k
  | _ => None
  end.

Fixpoint rulesAt (σ : gmap loc object) (elems : list loc)
  : option (list ImageRule.t) :=
  match elems with
  | [] => Some []
  | l :: rest =>
      match ruleAt σ l, rulesAt σ rest with
      | Some k, Some ks => Some (k :: ks)
      | _, _ => None
      end
  end.

Definition elemsAt (σ : gmap loc object) (a : loc) : option (list loc) :=
  match σ !! a with
  | Some (Array elems) => Some elems
  | _ => None
  end.

Definition arrayAt (σ : gmap loc object) (a : loc)
  : option (list ImageRule.t) :=
  match elemsAt σ a with
  | Some elems => rulesAt σ elems
  | None => None
  end.

(** The context an object of the store stands for. *)
Definition contextAt (σ : gmap loc object) (c : loc) : option Context.t :=
  match σ !! c with
  | Some (Ctx co) =>
      match images co with
      | Some a =>
          match arrayAt σ a with
          | Some rules =>
              Some (Context.mk (name co) (registry co) (imageTag co)
                      (Some rules))
          | None => None
          end
      | None =>
          Some (Context.mk (name co) (registry co) (imageTag co) None)
      end
  | _ => None
  end.

(** The references held by [context.images], none when it is absent. *)
Definition explicitRefs (σ : gmap loc object) (c : loc) : list loc :=
  match σ !! c with
  | Some (Ctx co) =>
      match images co with
      | Some a => default [] (elemsAt σ a)
      | None => []
      end
  | _ => []
  end.

(** The invariant of the loop run from a store [σ0]: nothing of [σ0]
    has changed, the local array [im] is new and holds new rule objects
    that read as [ks]. *)
Definition inv (σ0 : gmap loc object) (im : loc) (σ : gmap loc object)
  (elems : list loc) (ks : list ImageRule.t) : Prop :=
  σ0 ⊆ σ
  /\ σ0 !! im = None
  /\ σ !! im = Some (Array elems)
  /\ rulesAt σ elems = Some ks
  /\ Forall (fun l => σ0 !! l = None) elems.

(** A sample store: the context [c1] of the third scenario. *)
Definition sample : gmap loc object :=
  <[1%positive := Ctx (mkContext "c1" None (Some "v2") (Some 2%positive))]>
    (<[2%positive := Array [3%positive]]>
       (<[3%positive :=
            Rule (ImageRule.mk "myservice" (Some "other/myservice") None)]>
          ∅)).

(** The context that [sample] holds at reference 1. *)
Definition sampleContext : Context.t :=
  Context.mk "c1" None (Some "v2")
    (Some [ImageRule.mk "myservice" (Some "other/myservice") None]).

End Heap.

(** ** JavaScript values in conditions *)

Module Js.

(** The values an application or a YAML document hands to the tool;
    numbers are kept to the integers.  An array carries, next to its
    elements, the named properties assigned to it. *)
#[local] Unset Elimination Schemes.

Inductive value : Type :=
| Undefined
| Null
| Bool (b : bool)
| Num (n : Z)
| Str (s : string)
| Arr (elems : list value) (props : list (string * value))
| Obj (fields : list (string * value)).

#[local] Set Elimination Schemes.

Definition truthy (v : value) : bool :=
  match v with
  | Undefined | Null => false
  | Bool b => b
  | Num n => negb (n =? 0)
  | Str s => JsString.truthy s
  | Arr _ _ | Obj _ => true
  end.

(** The property names every object literal inherits from
    [Object.prototype]: [o[key]] is not [undefined] for them although [o]
    has no such property of its own. *)
Definition objectPrototypeKeys : list string :=
  ["constructor"; "__defineGetter__"; "__defineSetter__"; "hasOwnProperty";
   "__lookupGetter__"; "__lookupSetter__"; "isPrototypeOf";
   "propertyIsEnumerable"; "toString"; "valueOf"; "__proto__";
   "toLocaleString"].

Definition inherited (key : string) : bool :=
  found (List.find (String.eqb key) objectPrototypeKeys).

Fixpoint lookupField (key : string) (fields : list (string * value))
  : option value :=
  match fields with
  | [] => None
  | (k, v) :: rest => if String.eqb k key then Some v else lookupField key rest
  end.

Fixpoint storeField (key : string) (v : value)
  (fields : list (string * value)) : list (string * value) :=
  match fields with
  | [] => [(key, v)]
  | (k, w) :: rest =>
      if String.eqb k key then (k, v) :: rest
      else (k, w) :: storeField key v rest
  end.

(** [v[key]] for a key that is neither an index nor a built-in property
    ([length], the members of the prototypes): [None] for the [TypeError]
    of reading a property of [undefined] or [null], [undefined] when
    there is no such property. *)
Definition get (v : value) (key : string) : option value :=
  match v with
  | Undefined | Null => None
  | Obj fields => Some (default Undefined (lookupField key fields))
  | Arr _ props => Some (default Undefined (lookupField key props))
  | Bool _ | Num _ | Str _ => Some Undefined
  end.

(** [v[key] = x] outside strict mode, for such a key: [None] for the
    [TypeError] on [undefined] and [null]; on a primitive the assignment
    is dropped. *)
Definition set (v : value) (key : string) (x : value) : option value :=
  match v with
  | Undefined | Null => None
  | Obj fields => Some (Obj (storeField key x fields))
  | Arr elems props => Some (Arr elems (storeField key x props))
  | Bool _ | Num _ | Str _ => Some v
  end.

(** [v === s] for a string [s]. *)
Definition strictEqualsString (v : value) (s : string) : bool :=
  match v with
  | Str t => String.eqb t s
  | _ => false
  end.

(** [o[key] = v] on an object used as a map: the key ["__proto__"] sets
    the prototype and adds no property. *)
Definition assign {V : Type} (key : string) (v : V) (o : gmap string V)
  : gmap string V :=
  if String.eqb key "__proto__" then o else <[key := v]> o.

End Js.

(** ** Layers and the archiver (lines 118-163) *)

(** A JSON-patch target [{ target, path }]: the file path the patch is
    stored under and the descriptor of the resource it applies to. *)
Record Target : Type := mkTarget
  { path : string;
    target : Js.value }.

Module Layer.
Record t : Type := mk
  { name : string;
    resources : gmap string Js.value;
    bases : list string;
    patches : gmap string Js.value;
    patchesJSON : gmap string (Js.value * Target);
    images : list ImageRule.t }.

(** [new Layer(name)]. *)
Definition new (name : string) : t := mk name ∅ [] ∅ ∅ [].

Definition withResources (l : t) (r : gmap string Js.value) : t :=
  mk (name l) r (bases l) (patches l) (patchesJSON l) (images l).
Definition withPatches (l : t) (p : gmap string Js.value) : t :=
  mk (name l) (resources l) (bases l) p (patchesJSON l) (images l).
Definition withPatchesJSON (l : t) (p : gmap string (Js.value * Target)) : t :=
  mk (name l) (resources l) (bases l) (patches l) p (images l).
Definition withBases (l : t) (b : list string) : t :=
  mk (name l) (resources l) b (patches l) (patchesJSON l) (images l).
Definition withImages (l : t) (i : list ImageRule.t) : t :=
  mk (name l) (resources l) (bases l) (patches l) (patchesJSON l) i.
End Layer.

(** The application object, as far as [yamlCommand] uses it. *)
Record Item : Type := mkItem
  { obj : Js.value;
    itemName : string;
    layer : option string;
    JSONPatch : Js.value;
    JSONPatchTarget : option Target;
    patch : Js.value }.

Record App : Type := mkApp
  { appName : option string;
    getResources : list Item;
    getImages : list string }.

(** The manifest written as [kustomization.yaml]; the key lists of the
    source are kept as sets and maps, their order is not modelled. *)
Record Kustomization : Type := mkKustomization
  { apiVersion : string;
    kind : string;
    kBases : list string;
    kResources : gset string;
    kPatches : gset string;
    patchesJson6902 : gmap string Target;
    kImages : list ImageRule.t;
    commonAnnotations : option string }.

Module SolsaArchiver.

(** [this.layers], keyed by layer name; [this.outputRoot] only names the
    directory written to. *)
Record t : Type := mk
  { outputRoot : string;
    layers : gmap string Layer.t }.

(** The constructor. *)
Definition new (outputRoot : string) : t :=
  mk outputRoot {[ "base" := Layer.new "base" ]}.

(** [getLayer]: the layer registered under the name, created when
    [this.layers[layer]] is [undefined].  For a name inherited from
    [Object.prototype] the lookup is not [undefined] and what is returned
    is not a layer: [None]. *)
Definition getLayer (sa : t) (layer : string) : t * option Layer.t :=
  match layers sa !! layer with
  | Some l => (sa, Some l)
  | None =>
      if Js.inherited layer then (sa, None)
      else
        let l := Layer.new layer in
        (mk (outputRoot sa) (<[layer := l]> (layers sa)), Some l)
  end.

(** [this.getLayer(layer).field ... = ...]: an update of the layer
    object through the reference [getLayer] returns; a [TypeError]
    ([None]) when that is not a layer. *)
Definition onLayer (sa : t) (layer : string) (f : Layer.t -> Layer.t)
  : option t :=
  match getLayer sa layer with
  | (sa', Some l) =>
      Some (mk (outputRoot sa') (<[layer := f l]> (layers sa')))
  | (_, None) => None
  end.

(** The default value ['base'] of the parameter [layer]. *)
Definition orBase (layer : option string) : string :=
  match layer with
  | Some l => l
  | None => "base"
  end.

Definition addResource (sa : t) (obj : Js.value) (fname : string)
  (layer : option string) : option t :=
  onLayer sa (orBase layer)
    (fun l => Layer.withResources l (Js.assign fname obj (Layer.resources l))).

Definition addPatch (sa : t) (patch : Js.value) (fname : string)
  (layer : option string) : option t :=
  onLayer sa (orBase layer)
    (fun l => Layer.withPatches l (Js.assign fname patch (Layer.patches l))).

(** [target.path] raises a [TypeError] when [target] is [undefined]. *)
Definition addJSONPatch (sa : t) (patch : Js.value) (target : option Target)
  (layer : option string) : option t :=
  match target with
  | Some tg =>
      onLayer sa (orBase layer)
        (fun l => Layer.withPatchesJSON l
                    (Js.assign (path tg) (patch, tg) (Layer.patchesJSON l)))
  | None => None
  end.

(** Lines 186-190, for one context. *)
Definition finalizeContext (app : App) (sa : t) (context : Context.t)
  : option t :=
  onLayer sa (Context.name context)
    (fun contextLayer =>
       Layer.withImages
         (Layer.withBases contextLayer
            (Layer.bases contextLayer ++ ["./../base"]))
         (finalizeImageRenames context (getImages app))).

(** [for (const x of xs)] over a step that may raise. *)
Fixpoint each {A : Type} (step : t -> A -> option t) (sa : t) (xs : list A)
  : option t :=
  match xs with
  | [] => Some sa
  | x :: rest =>
      match step sa x with
      | Some sa' => each step sa' rest
      | None => None
      end
  end.

(** Lines 204-213: the manifest of a layer. *)
Definition kustom (app : App) (layer : Layer.t) : Kustomization :=
  {| apiVersion := "kustomize.config.k8s.io/v1beta1";
     kind := "Kustomization";
     kBases := Layer.bases layer;
     kResources := dom (Layer.resources layer);
     kPatches := dom (Layer.patches layer);
     patchesJson6902 := snd <$> Layer.patchesJSON layer;
     kImages := Layer.images layer;
     commonAnnotations :=
       if truthyOpt (appName app) then appName app else None |}.

(** [finalize]: the archiver afterwards and, per layer directory, the
    manifest written to its [kustomization.yaml]; the resource and patch
    files written next to the manifest are left out.  The file system is
    not part of the model: [Some] is the result of a run in which
    [fs.mkdirSync] (lines 192 and 194) and [writeToFile] succeed, and
    [None] stands for the [TypeError] of [getLayer] answering with a
    member of [Object.prototype] only.  A run can raise where the model
    returns [Some] (a layer name such as ['a/b'], whose directory
    [fs.mkdirSync] cannot create), so that what is proved of [finalize]
    is proved of the runs that complete. *)
Definition finalize (sa : t) (contexts : list Context.t) (app : App)
  : option (t * gmap string Kustomization) :=
  match each (finalizeContext app) sa contexts with
  | Some sa' => Some (sa', kustom app <$> layers sa')
  | None => None
  end.

End SolsaArchiver.

(** ** The classification loop of [yamlCommand] (lines 222-232) *)

(** The process-wide warning counter [errors] next to the archiver. *)
Record Process : Type := mkProcess
  { errors : nat;
    sa : SolsaArchiver.t }.

(** Lines 224-230, for one item. *)
Definition classify (p : Process) (item : Item) : option Process :=
  let update (r : option SolsaArchiver.t) : option Process :=
    match r with
    | Some sa' => Some (mkProcess (errors p) sa')
    | None => None
    end in
  if Js.truthy (obj item)
  then update (SolsaArchiver.addResource (sa p) (obj item) (itemName item)
                 (layer item))
  else if Js.truthy (JSONPatch item)
  then update (SolsaArchiver.addJSONPatch (sa p) (JSONPatch item)
                 (JSONPatchTarget item) (layer item))
  else if Js.truthy (patch item)
  then update (SolsaArchiver.addPatch (sa p) (patch item) (itemName item)
                 (layer item))
  else Some p.

Fixpoint classifyAll (p : Process) (items : list Item) : option Process :=
  match items with
  | [] => Some p
  | item :: rest =>
      match classify p item with
      | Some p' => classifyAll p' rest
      | None => None
      end
  end.

(** Lines 222-232: a new archiver, the loop, then [finalize]. *)
Definition synthesize (outputRoot : string) (contexts : list Context.t)
  (app : App) (errors0 : nat)
  : option (Process * gmap string Kustomization) :=
  match classifyAll (mkProcess errors0 (SolsaArchiver.new outputRoot))
          (getResources app) with
  | Some p =>
      match SolsaArchiver.finalize (sa p) contexts app with
      | Some (sa', manifests) => Some (mkProcess (errors p) sa', manifests)
      | None => None
      end
  | None => None
  end.

(** *** What a layer holds, for stating properties *)

(** The entries registered under a layer name, none for a layer that does
    not exist. *)
Definition resourcesOf (sa : SolsaArchiver.t) (key : string)
  : gmap string Js.value :=
  match SolsaArchiver.layers sa !! key with
  | Some l => Layer.resources l
  | None => ∅
  end.

Definition patchesOf (sa : SolsaArchiver.t) (key : string)
  : gmap string Js.value :=
  match SolsaArchiver.layers sa !! key with
  | Some l => Layer.patches l
  | None => ∅
  end.

Definition patchesJSONOf (sa : SolsaArchiver.t) (key : string)
  : gmap string (Js.value * Target) :=
  match SolsaArchiver.layers sa !! key with
  | Some l => Layer.patchesJSON l
  | None => ∅
  end.

(** A name [getLayer] answers with a layer: one that is registered, or
    one that [Object.prototype] does not define. *)
Definition usable (sa : SolsaArchiver.t) (key : string) : Prop :=
  is_Some (SolsaArchiver.layers sa !! key) \/ Js.inherited key = false.

(** The relative reference every context layer makes to the base layer. *)
Definition baseRef : string := "./../base".

Definition emptyApp : App := mkApp None [] [].

Definition baseNamed : Context.t := Context.mk "base" None None None.

(** An item with none of the three fields: [{ name: 'x', obj: null,
    patch: '' }]. *)
Definition emptyItem : Item :=
  mkItem Js.Null "x" None Js.Undefined None (Js.Str "").

(** ** [init] (lines 32-64) *)

(** What [yaml.safeLoad(fs.readFileSync(name))] comes to: the file cannot
    be read, it is not YAML, or it is a document. *)
Inductive LoadResult : Type :=
| ReadError
| ParseError
| Document (v : Js.value).

(** A [try] block when it ends: normally or by an exception, with the
    variables [config] and [errors] as they are then. *)
Inductive Outcome : Type :=
| Normal (config : Js.value) (errors : nat)
| Throws (config : Js.value) (errors : nat).

(** [contexts.find(({ name }) => name === context)]: [None] for the
    [TypeError] of destructuring [undefined] or [null], [undefined] when
    no element matches. *)
Fixpoint findContext (context : string) (elems : list Js.value)
  : option Js.value :=
  match elems with
  | [] => Some Js.Undefined
  | e :: rest =>
      match Js.get e "name" with
      | Some name =>
          if Js.strictEqualsString name context then Some e
          else findContext context rest
      | None => None
      end
  end.

(** Lines 34-39: [argv.context], else the output of [kubectl] (trimmed;
    [None] when the command fails). *)
Definition currentContext (argvContext kubectl : option string) (errors : nat)
  : option string * nat :=
  if truthyOpt argvContext then (argvContext, errors)
  else
    match kubectl with
    | Some out => (Some out, errors)
    | None => (None, errors + 1)%nat
    end.

(** Lines 44-58, the body of the second [try]; the variable [config] is
    assigned before anything is read from the document. *)
Definition loadConfig (context : option string) (file : LoadResult)
  (errors : nat) : Outcome :=
  let initial := Js.Obj [("contexts", Js.Arr [] [])] in
  match file with
  | ReadError | ParseError => Throws initial errors
  | Document config =>
      match Js.get config "contexts" with
      | None => Throws config errors
      | Some (Js.Arr elems _) =>
          match context with
          | Some ctx =>
              if truthy ctx
              then
                match findContext ctx elems with
                | Some hit =>
                    if negb (Js.truthy hit)
                    then Normal config (errors + 1)%nat
                    else
                      match Js.set config "context" (Js.Str ctx) with
                      | Some config => Normal config errors
                      | None => Throws config errors
                      end
                | None => Throws config errors
                end
              else Normal config errors
          | None => Normal config errors
          end
      | Some _ =>
          let errors := (errors + 1)%nat in
          match Js.set config "contexts" (Js.Arr [] []) with
          | Some config => Normal config errors
          | None => Throws config errors
          end
      end
  end.

(** [init]: the configuration returned and the warning counter. *)
Definition init (argvContext kubectl : option string) (file : LoadResult)
  (errors : nat) : Js.value * nat :=
  let (context, errors) := currentContext argvContext kubectl errors in
  match loadConfig context file errors with
  | Normal config errors => (config, errors)
  | Throws config errors => (config, (errors + 1)%nat)
  end.

(** The elements of [config.contexts] when it is an array; [yamlCommand]
    starts by reading [config.contexts.length] or [config.context], which
    raises when [config] is [undefined] or [null]. *)
Definition contextsOf (config : Js.value) : option (list Js.value) :=
  match Js.get config "contexts" with
  | Some (Js.Arr elems _) => Some elems
  | _ => None
  end.

(** ** [rename] (lines 276-289) *)

(** [a || b] on optional strings. *)
Definition orElse (a b : option string) : option string :=
  if truthyOpt a then a else b.

(** Line 288: [newTag ? newName + ':' + newTag : newName]. *)
Definition withTag (newName : string) (newTag : option string) : string :=
  match newTag with
  | Some t => if truthy t then newName +:+ ":" +:+ t else newName
  | None => newName
  end.

(** Lines 282-283 and 288: the reference [name] as the rule [image]
    rewrites it. *)
Definition applyRule (image : ImageRule.t) (name : string) : string :=
  let newName :=
    match ImageRule.newName image with
    | Some n => if truthy n then n else repoPart name
    | None => repoPart name
    end in
  withTag newName (orElse (ImageRule.newTag image) (tagPart name)).

Definition rename (name : string) (context : Context.t) : string :=
  match List.find
          (fun image =>
             String.eqb (ImageRule.name image) name
             || String.eqb (ImageRule.name image) (repoPart name))
          (explicitImages context) with
  | Some image => applyRule image name
  | None =>
      let newName :=
        match Context.registry context with
        | Some registry =>
            if truthy registry && negb (includes name slash)
            then registry +:+ "/" +:+ repoPart name
            else repoPart name
        | None => repoPart name
        end in
      withTag newName (orElse (tagPart name) (Context.imageTag context))
  end.

(** A context without registry, default tag or explicit rules. *)
Definition bare (name : string) : Context.t := Context.mk name None None None.

(** ** [new Set(names)]: the names in the order of their first occurrence *)

Definition setAdd (set : list string) (name : string) : list string :=
  if decide (name ∈ set) then set else set ++ [name].

Definition setOf (names : list string) : list string :=
  fold_left setAdd names [].

(** The references for which [finalizeImageRenames] makes a rule, in the
    order in which it meets them. *)
Definition accepted (context : Context.t) (appImages : list string)
  : list string :=
  setOf (filter (fun name => alreadyKustomized context name = false) appImages).

(** ** The commands [build] and [push] (lines 243-309) *)

(** An entry of [app.getBuilds()]. *)
Module Build.
Record t : Type := mk
  { name : string;
    build : string;
    main : option string }.
End Build.

(** The configuration as the commands use it. *)
Module Config.
Record t : Type := mk
  { contexts : list Context.t;
    context : option string }.
End Config.

(** The external commands the tool runs, in the order it runs them; each
    is taken to succeed. *)
Inductive Action : Type :=
| NpmInstall (cwd : string)
| Rsync (cwd : string)
| DockerBuild (cwd main name : string)
| DockerTag (name tag : string)
| DockerPush (tag : string)
| Tar (output : string)
| KustomizeBuild (layer : string).

(** The function [build] of [buildCommand]: [existsSync] answers for the
    file system as it is after the commands run so far. *)
Definition build (existsSync : list Action -> string -> string -> bool)
  (state : nat * list Action) (image : Build.t) : nat * list Action :=
  let (errors, trace) := state in
  let dir := Build.build image in
  if negb (existsSync trace dir "package.json")
  then ((errors + 1)%nat, trace)
  else
    let trace :=
      if negb (existsSync trace dir "node_modules")
      then trace ++ [NpmInstall dir]
      else trace in
    (errors,
     trace ++ [Rsync dir;
               DockerBuild dir (default "." (Build.main image))
                 (Build.name image)]).

(** Lines 270-273; [None] for the [TypeError] of [build(undefined)]. *)
Fixpoint buildEach (existsSync : list Action -> string -> string -> bool)
  (images : list Build.t) (names : list string) (state : nat * list Action)
  : option (nat * list Action) :=
  match names with
  | [] => Some state
  | name :: rest =>
      match List.find (fun image => String.eqb (Build.name image) name)
              images with
      | Some image =>
          buildEach existsSync images rest (build existsSync state image)
      | None => None
      end
  end.

Definition buildCommand (existsSync : list Action -> string -> string -> bool)
  (images : list Build.t) (errors : nat) : option (nat * list Action) :=
  buildEach existsSync images (setOf (Build.name <$> images)) (errors, []).

(** Lines 300-307, for one image name. *)
Definition pushOne (context : Context.t) (name : string) : list Action :=
  let tag := rename name context in
  DockerTag name tag :: (if includes tag slash then [DockerPush tag] else []).

(** [pushCommand], for a configuration that is an object with a list of
    contexts ([init] returns [undefined] or [null] for an empty
    configuration file, on which the test of line 292 raises: those have
    no counterpart in [Config.t]); [None] for the [TypeError] of [rename]
    on a context that [find] did not find. *)
Definition pushCommand (config : Config.t) (images : list Build.t)
  (errors : nat) : option (nat * list Action) :=
  match Config.context config with
  | Some current =>
      if truthy current
      then
        let context :=
          List.find (fun c => String.eqb (Context.name c) current)
            (Config.contexts config) in
        match setOf (Build.name <$> images), context with
        | [], _ => Some (errors, [])
        | names, Some context =>
            Some (errors, flat_map (pushOne context) names)
        | _ :: _, None => None
        end
      else Some ((errors + 1)%nat, [])
  | None => Some ((errors + 1)%nat, [])
  end.

(** ** [yamlCommand] (lines 103-241) *)

(** Lines 104-114. *)
Definition yamlWarnings (output : option string) (config : Config.t)
  (errors : nat) : nat :=
  if truthyOpt output
  then
    if (length (Config.contexts config) =? 0)%nat
    then (errors + 1)%nat else errors
  else
    if negb (truthyOpt (Config.context config))
    then (errors + 1)%nat else errors.

(** The layer directory handed to [kustomize build]:
    [config.context || 'base']. *)
Definition builtLayer (config : Config.t) : string :=
  match Config.context config with
  | Some current => if truthy current then current else "base"
  | None => "base"
  end.

(** [yamlCommand] for a loaded application: the warning counter, the
    manifests written and the command run on them. *)
Definition yamlCommand (output : option string) (outputRoot : string)
  (config : Config.t) (app : App) (errors0 : nat)
  : option (nat * gmap string Kustomization * Action) :=
  match synthesize outputRoot (Config.contexts config) app
          (yamlWarnings output config errors0) with
  | Some (p, manifests) =>
      Some (errors p, manifests,
            match output with
            | Some out =>
                if truthy out then Tar out
                else KustomizeBuild (builtLayer config)
            | None => KustomizeBuild (builtLayer config)
            end)
  | None => None
  end.

(** *** Reading a trace of commands *)





(** An item that the classification loop registers somewhere. *)
Definition registers (item : Item) : bool :=
  Js.truthy (obj item) || Js.truthy (JSONPatch item) || Js.truthy (patch item).

(** The layer an item goes to. *)
Definition layerOf (item : Item) : string := SolsaArchiver.orBase (layer item).

(** The update of its layer that an item asks for (lines 224-230 with
    lines 154, 158 and 162); [None] when it asks for none or when
    [target.path] raises. *)
Definition updateOf (item : Item) : option (Layer.t -> Layer.t) :=
  if Js.truthy (obj item)
  then Some (fun l => Layer.withResources l
                        (Js.assign (itemName item) (obj item)
                           (Layer.resources l)))
  else if Js.truthy (JSONPatch item)
  then
    match JSONPatchTarget item with
    | Some tg =>
        Some (fun l => Layer.withPatchesJSON l
                         (Js.assign (path tg) (JSONPatch item, tg)
                            (Layer.patchesJSON l)))
    | None => None
    end
  else if Js.truthy (patch item)
  then Some (fun l => Layer.withPatches l
                        (Js.assign (itemName item) (patch item)
                           (Layer.patches l)))
  else None.

(** The layer found or made for a name. *)
Definition layerAt (sa : SolsaArchiver.t) (key : string) : Layer.t :=
  default (Layer.new key) (SolsaArchiver.layers sa !! key).

(** A small application: a service in the base layer, a patch of it for
    the context [prod], an item without content. *)
Definition sampleApp : App :=
  mkApp (Some "shop")
    [mkItem (Js.Obj [("kind", Js.Str "Service")]) "svc.yaml" None
       Js.Undefined None Js.Undefined;
     mkItem Js.Undefined "scale.yaml" (Some "prod")
       Js.Undefined None (Js.Obj [("replicas", Js.Num 3)]);
     emptyItem]
    ["shop-api"; "shop-ui:v2"].

(** A configuration file with one context. *)
Definition sampleDocument : Js.value :=
  Js.Obj [("contexts",
           Js.Arr [Js.Obj [("name", Js.Str "dev");
                           ("registry", Js.Str "reg.example.com")]] [])].
(** * Properties *)

(** ** The split on sample references *)

Example splitRef_port :
  splitRef "localhost:5000/app:v1" = ("localhost:5000/app", Some "v1").
Proof. reflexivity. Qed.

Example splitRef_plain : splitRef "myservice" = ("myservice", None).
Proof. reflexivity. Qed.

Example splitRef_nested :
  splitRef "reg:5000/ns/app:v1" = ("reg:5000/ns/app", Some "v1").
Proof. reflexivity. Qed.

Example splitRef_emptyTag : splitRef "a:" = ("a", Some "").
Proof. reflexivity. Qed.

Example splitRef_digest :
  splitRef "myservice:v1@sha256:0123" = ("myservice", Some "v1@sha256:0123").
Proof. reflexivity. Qed.

Example splitSpec_digest :
  splitLastColonAfterLastSlash "myservice:v1@sha256:0123"
  = ("myservice:v1@sha256", Some "0123").
Proof. reflexivity. Qed.

(** ** Facts about the string primitives *)

Section StringFacts.

Local Arguments String.append !_ _ / : simpl nomatch.

Lemma len_append (a b : string) : len (a +:+ b) = (len a + len b)%nat.
Proof. induction a as [|x a IH]; simpl; [reflexivity | now rewrite IH]. Qed.

Lemma append_assoc (a b c : string) : (a +:+ b) +:+ c = a +:+ (b +:+ c).
Proof. induction a as [|x a IH]; simpl; [reflexivity | f_equal; exact IH]. Qed.

Lemma takeS_append (a b : string) : takeS (len a) (a +:+ b) = a.
Proof.
  induction a as [|x a IH]; simpl; [now destruct b | f_equal; exact IH].
Qed.

Lemma takeS_all (n : nat) (s : string) : (len s <= n)%nat -> takeS n s = s.
Proof.
  revert n; induction s as [|x s IH]; intros [|n] H; simpl in *;
    try reflexivity; try lia.
  rewrite IH; [reflexivity | lia].
Qed.

Lemma dropS_append (a b : string) : dropS (len a) (a +:+ b) = b.
Proof. induction a as [|x a IH]; simpl; [now destruct b | exact IH]. Qed.

Lemma includes_append (a b : string) (c : ascii) :
  includes (a +:+ b) c = includes a c || includes b c.
Proof.
  induction a as [|x a IH]; simpl; [reflexivity |].
  destruct (Ascii.eqb x c); [reflexivity | exact IH].
Qed.

(** Every string that includes [c] splits at a first occurrence. *)
Lemma includes_first (s : string) (c : ascii) :
  includes s c = true ->
  exists a r, s = a +:+ String c r /\ includes a c = false.
Proof.
  induction s as [|x s IH]; simpl; [discriminate |].
  destruct (Ascii.eqb x c) eqn:E.
  - intros _. apply Ascii.eqb_eq in E. subst x.
    exists EmptyString, s. split; reflexivity.
  - intros H. destruct (IH H) as (a & r & -> & Ha).
    exists (String x a), r. split; [reflexivity |].
    simpl. now rewrite E.
Qed.

Lemma indexOfFrom_absent (c : ascii) (s : string) (k : nat) (i : Z) :
  includes s c = false -> indexOfFrom c s k i = -1.
Proof.
  revert k i; induction s as [|x s IH]; intros k i H; simpl in *;
    [reflexivity |].
  destruct (Ascii.eqb x c); [discriminate |].
  destruct k; apply IH; exact H.
Qed.

Lemma indexOfFrom_first (c : ascii) (a r : string) (i : Z) :
  includes a c = false ->
  indexOfFrom c (a +:+ String c r) 0 i = i + Z.of_nat (len a).
Proof.
  revert i; induction a as [|x a IH]; intros i H; simpl in *.
  - rewrite Ascii.eqb_refl. lia.
  - destruct (Ascii.eqb x c); [discriminate |].
    rewrite IH by exact H. lia.
Qed.

Lemma indexOfFrom_skip (c : ascii) (a s : string) (i : Z) :
  indexOfFrom c (a +:+ s) (len a) i = indexOfFrom c s 0 (i + Z.of_nat (len a)).
Proof.
  revert i; induction a as [|x a IH]; intros i; simpl.
  - now rewrite Z.add_0_r.
  - rewrite IH. f_equal. lia.
Qed.

Lemma substring_prefix (a b : string) :
  substring (a +:+ b) 0 (Z.of_nat (len a)) = a.
Proof.
  unfold substring, clampIndex. rewrite len_append.
  replace (Z.to_nat (Z.min (Z.max 0 0) _)) with 0%nat by lia.
  replace (Z.to_nat (Z.min (Z.max 0 (Z.of_nat (len a))) _)) with (len a)
    by lia.
  rewrite Nat.max_r, Nat.min_l by lia.
  rewrite Nat.sub_0_r. simpl dropS.
  destruct (a +:+ b) eqn:E; rewrite <- E; apply takeS_append.
Qed.

Lemma substringFrom_suffix (a b : string) (x : ascii) :
  substringFrom (a +:+ String x b) (Z.of_nat (len a) + 1) = b.
Proof.
  unfold substringFrom, substring, clampIndex.
  rewrite len_append. simpl len.
  replace (Z.to_nat (Z.min (Z.max 0 (Z.of_nat (len a) + 1)) _))
    with (len a + 1)%nat by lia.
  replace (Z.to_nat (Z.min (Z.max 0 (Z.of_nat (len a + S (len b)))) _))
    with (len a + S (len b))%nat by lia.
  rewrite Nat.max_r, Nat.min_l by lia.
  replace (a +:+ String x b) with ((a +:+ String x EmptyString) +:+ b)
    by (rewrite append_assoc; reflexivity).
  replace (len a + 1)%nat with (len (a +:+ String x EmptyString))
    by (rewrite len_append; reflexivity).
  rewrite dropS_append. apply takeS_all.
  rewrite len_append. simpl. lia.
Qed.

(** The position of the split colon, by cases on the reference. *)
Lemma tagPos_qualified_tag (a b t : string) :
  includes a slash = false -> includes b colon = false ->
  tagPos (a +:+ String slash (b +:+ String colon t))
  = Z.of_nat (len (a +:+ String slash b)).
Proof.
  intros Ha Hb. unfold tagPos, indexOf.
  rewrite (indexOfFrom_first slash a _ 0 Ha).
  replace (Z.to_nat (0 + Z.of_nat (len a))) with (len a) by lia.
  rewrite indexOfFrom_skip. simpl indexOfFrom.
  rewrite indexOfFrom_first by exact Hb.
  rewrite len_append. simpl. lia.
Qed.

Lemma tagPos_qualified_plain (a rest : string) :
  includes a slash = false -> includes rest colon = false ->
  tagPos (a +:+ String slash rest) = -1.
Proof.
  intros Ha Hr. unfold tagPos, indexOf.
  rewrite (indexOfFrom_first slash a _ 0 Ha).
  replace (Z.to_nat (0 + Z.of_nat (len a))) with (len a) by lia.
  rewrite indexOfFrom_skip. simpl indexOfFrom.
  apply indexOfFrom_absent; exact Hr.
Qed.

Lemma tagPos_short_tag (b t : string) :
  includes (b +:+ String colon t) slash = false ->
  includes b colon = false ->
  tagPos (b +:+ String colon t) = Z.of_nat (len b).
Proof.
  intros Hs Hb. unfold tagPos, indexOf.
  rewrite (indexOfFrom_absent slash _ _ _ Hs). simpl Z.to_nat.
  rewrite indexOfFrom_first by exact Hb. lia.
Qed.

Lemma tagPos_short_plain (name : string) :
  includes name slash = false -> includes name colon = false ->
  tagPos name = -1.
Proof.
  intros Hs Hc. unfold tagPos, indexOf.
  rewrite (indexOfFrom_absent slash _ _ _ Hs). simpl Z.to_nat.
  apply indexOfFrom_absent; exact Hc.
Qed.

Lemma Zofnat_neq_m1 (n : nat) : (Z.of_nat n =? -1) = false.
Proof. apply Z.eqb_neq. lia. Qed.

(** The repository part contains a path separator exactly when the whole
    reference does. *)
Lemma includes_slash_repoPart (name : string) :
  includes (repoPart name) slash = includes name slash.
Proof.
  destruct (includes name slash) eqn:Hs.
  - destruct (includes_first _ _ Hs) as (a & rest & -> & Ha).
    destruct (includes rest colon) eqn:Hc.
    + destruct (includes_first _ _ Hc) as (b & t & -> & Hb).
      unfold repoPart. fold slash colon.
      rewrite tagPos_qualified_tag by assumption.
      rewrite Zofnat_neq_m1.
      replace (a +:+ String slash (b +:+ String colon t))
        with ((a +:+ String slash b) +:+ String colon t)
        by (rewrite append_assoc; reflexivity).
      rewrite substring_prefix, includes_append. simpl.
      rewrite Ha. reflexivity.
    + unfold repoPart. rewrite tagPos_qualified_plain by assumption.
      simpl. exact Hs.
  - destruct (includes name colon) eqn:Hc.
    + destruct (includes_first _ _ Hc) as (b & t & -> & Hb).
      unfold repoPart. fold colon in *.
      rewrite tagPos_short_tag by assumption.
      rewrite Zofnat_neq_m1, substring_prefix.
      rewrite includes_append in Hs. apply orb_false_iff in Hs. tauto.
    + unfold repoPart. rewrite tagPos_short_plain by assumption.
      simpl. exact Hs.
Qed.

End StringFacts.

(** ** The split rule of the resolver *)

(** C2, counterexample.  On a reference that carries a tag and a digest
    the code splits at the first colon, not at the last one; and on a
    reference whose only colon after the first path separator lies before
    the last one, the code still reports a tag. *)
Lemma splitRef_last_colon_counterexample :
  splitRef "myservice:v1@sha256:0123"
    <> splitLastColonAfterLastSlash "myservice:v1@sha256:0123"
  /\ lastIndexOf "reg/a:b/c" colon < lastIndexOf "reg/a:b/c" slash
  /\ tagPart "reg/a:b/c" = Some "b/c".
Proof. repeat split; vm_compute; congruence. Qed.

(** C2, as amended.  [finalizeImageRenames] splits a reference at the
    first colon located after its first path separator, or at its first
    colon when it has no path separator; the tag is undefined exactly when
    there is no such colon.  The four cases cover every string. *)
Theorem splitRef_first_colon_after_first_slash :
  (forall a b t : string,
      includes a slash = false -> includes b colon = false ->
      splitRef (a +:+ "/" +:+ b +:+ ":" +:+ t) = (a +:+ "/" +:+ b, Some t))
  /\ (forall a rest : string,
      includes a slash = false -> includes rest colon = false ->
      splitRef (a +:+ "/" +:+ rest) = (a +:+ "/" +:+ rest, None))
  /\ (forall b t : string,
      includes (b +:+ ":" +:+ t) slash = false -> includes b colon = false ->
      splitRef (b +:+ ":" +:+ t) = (b, Some t))
  /\ (forall name : string,
      includes name slash = false -> includes name colon = false ->
      splitRef name = (name, None)).
Proof.
  repeat split.
  - intros a b t Ha Hb.
    change ("/" +:+ b +:+ ":" +:+ t) with (String slash (b +:+ String colon t)).
    unfold splitRef, repoPart, tagPart.
    rewrite tagPos_qualified_tag by assumption.
    rewrite Zofnat_neq_m1.
    replace (a +:+ String slash (b +:+ String colon t))
      with ((a +:+ String slash b) +:+ String colon t)
      by (rewrite append_assoc; reflexivity).
    rewrite substring_prefix, substringFrom_suffix.
    reflexivity.
  - intros a rest Ha Hr.
    change ("/" +:+ rest) with (String slash rest).
    unfold splitRef, repoPart, tagPart.
    rewrite tagPos_qualified_plain by assumption. reflexivity.
  - intros b t Hs Hb.
    change (":" +:+ t) with (String colon t) in *.
    unfold splitRef, repoPart, tagPart.
    rewrite tagPos_short_tag by assumption.
    rewrite Zofnat_neq_m1, substring_prefix, substringFrom_suffix.
    reflexivity.
  - intros name Hs Hc.
    unfold splitRef, repoPart, tagPart.
    rewrite tagPos_short_plain by assumption. reflexivity.
Qed.

Lemma splitRef_first_colon_after_first_slash_witness :
  splitRef ("localhost:5000" +:+ "/" +:+ "ns/app" +:+ ":" +:+ "v1:x")
  = ("localhost:5000" +:+ "/" +:+ "ns/app", Some "v1:x").
Proof.
  exact (proj1 splitRef_first_colon_after_first_slash
           "localhost:5000" "ns/app" "v1:x" eq_refl eq_refl).
Defined.

(** ** The resolver on the scenarios of the specification *)

Example scenario1 :
  finalizeImageRenames dev ["myservice"]
  = [ImageRule.mk "myservice" (Some "reg.example.com/myservice") None].
Proof. reflexivity. Qed.

Example scenario2 :
  finalizeImageRenames prod ["myservice:v1"]
  = [ImageRule.mk "myservice:v1" None None].
Proof. reflexivity. Qed.

Example scenario3 :
  finalizeImageRenames c1 ["myservice"]
  = [ImageRule.mk "myservice" (Some "other/myservice") None].
Proof. reflexivity. Qed.

Example scenario4 :
  finalizeImageRenames prod ["a"; "a:latest"]
  = [ImageRule.mk "a:latest" None None; ImageRule.mk "a" None (Some "v2")].
Proof. reflexivity. Qed.

(** A reference that ends in its colon has an empty tag and is treated as
    untagged; an empty [imageTag] or [registry] counts as none. *)
Example empty_tag_is_untagged :
  carriesTag "a:" = false
  /\ finalizeImageRenames prod ["a:"] = [ImageRule.mk "a:" None (Some "v2")]
  /\ finalizeImageRenames (Context.mk "x" (Some "") (Some "") None) ["a"]
     = [ImageRule.mk "a" None None].
Proof. repeat split. Qed.

Example mixed_order :
  map ImageRule.name
    (finalizeImageRenames prod ["u1"; "t1:1"; "u2"; "t2:2"; "u1"; "t1:1"])
  = ["t2:2"; "t1:1"; "u1"; "u2"].
Proof. reflexivity. Qed.


(** ** Invariants of the resolution loop *)

Section ResolverFacts.

Variable context : Context.t.

Lemma found_find {A : Type} (p : A -> bool) (l : list A) :
  found (List.find p l) = true <-> exists x, x ∈ l /\ p x = true.
Proof.
  induction l as [|y l IH]; simpl.
  - split; [discriminate | intros (x & Hx & _); inversion Hx].
  - destruct (p y) eqn:E; simpl.
    + split; [intros _; exists y; split; [left | exact E] | reflexivity].
    + rewrite IH. split.
      * intros (x & Hx & Hp). exists x. split; [now right | exact Hp].
      * intros (x & Hx & Hp). apply elem_of_cons in Hx as [-> | Hx];
          [congruence | exists x; tauto].
Qed.

Lemma alreadyEncountered_true (images : list ImageRule.t) (name : string) :
  alreadyEncountered images name = true <-> name ∈ (ImageRule.name <$> images).
Proof.
  unfold alreadyEncountered. rewrite found_find, list_elem_of_fmap.
  split.
  - intros (k & Hk & E). apply String.eqb_eq in E. now exists k.
  - intros (k & E & Hk). exists k. split; [exact Hk |].
    apply String.eqb_eq. now symmetry.
Qed.

Lemma alreadyEncountered_false (images : list ImageRule.t) (name : string) :
  alreadyEncountered images name = false <-> name ∉ (ImageRule.name <$> images).
Proof.
  rewrite <- alreadyEncountered_true.
  destruct (alreadyEncountered images name); split; congruence.
Qed.

Lemma alreadyKustomized_true (name : string) :
  alreadyKustomized context name = true <->
  exists image, image ∈ explicitImages context
                /\ (ImageRule.name image = name
                    \/ ImageRule.name image = repoPart name).
Proof.
  unfold alreadyKustomized, explicitImages.
  destruct (Context.images context) as [rules|].
  - rewrite found_find. split; intros (k & Hk & E); exists k;
      (split; [exact Hk |]).
    + apply orb_true_iff in E as [E | E]; apply String.eqb_eq in E; tauto.
    + apply orb_true_iff. destruct E as [E | E]; [left | right];
        now apply String.eqb_eq.
  - split; [discriminate | intros (k & Hk & _); inversion Hk].
Qed.

Lemma derivedRule_name (name : string) :
  ImageRule.name (derivedRule context name) = name.
Proof.
  unfold derivedRule, applyImageTag, candidate.
  destruct (truthyOpt (tagPart name)), (Context.imageTag context) as [t|],
    (Context.registry context) as [r|]; simpl;
    repeat match goal with |- context [if ?b then _ else _] => destruct b end;
    reflexivity.
Qed.

(** The three outcomes of one iteration. *)
Lemma renameStep_cases (images : list ImageRule.t) (name : string) :
  (renameStep context images name = images
   /\ (alreadyKustomized context name = true
       \/ name ∈ (ImageRule.name <$> images)))
  \/ (alreadyKustomized context name = false
      /\ (name ∉ (ImageRule.name <$> images))
      /\ ((carriesTag name = true
           /\ renameStep context images name
              = derivedRule context name :: images)
          \/ (carriesTag name = false
              /\ renameStep context images name
                 = images ++ [derivedRule context name]))).
Proof.
  unfold renameStep, derivedRule, carriesTag.
  destruct (alreadyKustomized context name) eqn:Hk; [left; tauto |].
  destruct (alreadyEncountered images name) eqn:He.
  - left. apply alreadyEncountered_true in He. tauto.
  - right. apply alreadyEncountered_false in He.
    destruct (truthyOpt (tagPart name)); tauto.
Qed.

Lemma renameStep_skip (images : list ImageRule.t) (name : string) :
  alreadyKustomized context name = true
  \/ name ∈ (ImageRule.name <$> images) ->
  renameStep context images name = images.
Proof.
  intros H. unfold renameStep.
  destruct (alreadyKustomized context name); [reflexivity |].
  destruct H as [H | H]; [discriminate |].
  apply alreadyEncountered_true in H. now rewrite H.
Qed.

Lemma derivedFrom_weaken (l l' : list string) (tag : bool) (k : ImageRule.t) :
  (forall n, n ∈ l -> n ∈ l') ->
  derivedFrom context l tag k -> derivedFrom context l' tag k.
Proof. unfold derivedFrom. intros Hl (H1 & H2 & H3 & H4). auto. Qed.

(** The loop only ever grows the array at its two ends: tagged rules at
    the front, untagged rules at the back. *)
Lemma fold_renameStep_shape (l : list string) (images : list ImageRule.t) :
  exists T U,
    fold_left (renameStep context) l images = T ++ images ++ U
    /\ Forall (derivedFrom context l true) T
    /\ Forall (derivedFrom context l false) U.
Proof.
  revert images; induction l as [|n l IH]; intros images.
  - exists [], []. simpl. rewrite app_nil_r. repeat split; constructor.
  - destruct (IH (renameStep context images n)) as (T & U & Hfold & HT & HU).
    change (fold_left (renameStep context) (n :: l) images)
      with (fold_left (renameStep context) l (renameStep context images n)).
    rewrite Hfold. clear Hfold.
    assert (Hw : forall tag k, derivedFrom context l tag k ->
                               derivedFrom context (n :: l) tag k).
    { intros tag k. apply derivedFrom_weaken. intros m Hm. now right. }
    assert (Hnew : forall tag, alreadyKustomized context n = false ->
              carriesTag n = tag ->
              derivedFrom context (n :: l) tag (derivedRule context n)).
    { intros tag Hk Hc. unfold derivedFrom. rewrite derivedRule_name.
      repeat split; try assumption. left. }
    destruct (renameStep_cases images n)
      as [[E _] | (Hk & _ & [[Hc E] | [Hc E]])]; rewrite E.
    + exists T, U. split; [reflexivity |].
      split; eapply Forall_impl; eauto.
    + exists (T ++ [derivedRule context n]), U.
      split; [rewrite <- app_assoc; reflexivity |].
      split; [| eapply Forall_impl; eauto].
      apply Forall_app. split; [eapply Forall_impl; eauto |].
      constructor; [now apply Hnew | constructor].
    + exists T, (derivedRule context n :: U).
      split; [rewrite <- !app_assoc; reflexivity |].
      split; [eapply Forall_impl; eauto |].
      constructor; [now apply Hnew | eapply Forall_impl; eauto].
Qed.

Lemma fold_renameStep_NoDup (l : list string) (images : list ImageRule.t) :
  NoDup (ImageRule.name <$> images) ->
  NoDup (ImageRule.name <$> fold_left (renameStep context) l images).
Proof.
  revert images; induction l as [|n l IH]; intros images Hnd; simpl;
    [exact Hnd |].
  apply IH.
  destruct (renameStep_cases images n)
    as [[E _] | (_ & Hnew & [[_ E] | [_ E]])]; rewrite E.
  - exact Hnd.
  - rewrite fmap_cons, derivedRule_name. apply NoDup_cons. tauto.
  - rewrite fmap_app. simpl. rewrite derivedRule_name.
    apply NoDup_app. repeat split; [exact Hnd | | apply NoDup_singleton].
    intros x Hx Hx'. apply list_elem_of_singleton in Hx'. congruence.
Qed.

Lemma renameStep_keeps (images : list ImageRule.t) (n m : string) :
  m ∈ (ImageRule.name <$> images) ->
  m ∈ (ImageRule.name <$> renameStep context images n).
Proof.
  intros Hm.
  destruct (renameStep_cases images n)
    as [[E _] | (_ & _ & [[_ E] | [_ E]])]; rewrite E.
  - exact Hm.
  - rewrite fmap_cons. now right.
  - rewrite fmap_app. apply elem_of_app. now left.
Qed.

Lemma fold_renameStep_keeps (l : list string) (images : list ImageRule.t)
  (m : string) :
  m ∈ (ImageRule.name <$> images) ->
  m ∈ (ImageRule.name <$> fold_left (renameStep context) l images).
Proof.
  revert images; induction l as [|n l IH]; intros images Hm; simpl;
    [exact Hm |].
  apply IH, renameStep_keeps, Hm.
Qed.

(** Every reference that is not overridden ends up with a rule. *)
Lemma fold_renameStep_complete (l : list string) (images : list ImageRule.t)
  (m : string) :
  m ∈ l -> alreadyKustomized context m = false ->
  m ∈ (ImageRule.name <$> fold_left (renameStep context) l images).
Proof.
  revert images; induction l as [|n l IH]; intros images Hm Hk;
    [inversion Hm |].
  simpl. apply elem_of_cons in Hm as [-> | Hm]; [| now apply IH].
  apply fold_renameStep_keeps.
  destruct (renameStep_cases images n)
    as [[E [H | H]] | (_ & _ & [[_ E] | [_ E]])]; rewrite E.
  - congruence.
  - exact H.
  - rewrite fmap_cons, derivedRule_name. left.
  - rewrite fmap_app. apply elem_of_app. right. simpl.
    rewrite derivedRule_name. left.
Qed.

(** A second occurrence of a reference leaves the array as it is. *)
Lemma fold_renameStep_repeat (l1 l2 l3 : list string) (n : string)
  (images : list ImageRule.t) :
  fold_left (renameStep context) (l1 ++ n :: l2 ++ n :: l3) images
  = fold_left (renameStep context) (l1 ++ n :: l2 ++ l3) images.
Proof.
  replace (l1 ++ n :: l2 ++ n :: l3) with ((l1 ++ n :: l2) ++ n :: l3)
    by (rewrite <- app_assoc; reflexivity).
  replace (l1 ++ n :: l2 ++ l3) with ((l1 ++ n :: l2) ++ l3)
    by (rewrite <- app_assoc; reflexivity).
  assert (Hn : n ∈ l1 ++ n :: l2) by (apply elem_of_app; right; left).
  revert Hn. generalize (l1 ++ n :: l2) as l. intros l Hn.
  rewrite !fold_left_app. simpl. f_equal.
  apply renameStep_skip.
  destruct (alreadyKustomized context n) eqn:Hk; [now left | right].
  now apply fold_renameStep_complete.
Qed.

Lemma derivedImages_shape (appImages : list string) :
  exists T U,
    derivedImages context appImages = T ++ U
    /\ Forall (derivedFrom context appImages true) T
    /\ Forall (derivedFrom context appImages false) U.
Proof.
  destruct (fold_renameStep_shape appImages []) as (T & U & E & HT & HU).
  exists T, U. simpl in E. tauto.
Qed.

Lemma derivedImages_elem (appImages : list string) (k : ImageRule.t) :
  k ∈ derivedImages context appImages ->
  exists tag, derivedFrom context appImages tag k.
Proof.
  destruct (derivedImages_shape appImages) as (T & U & E & HT & HU).
  rewrite E. intros [H | H]%elem_of_app.
  - exists true. eapply Forall_forall in HT; eauto.
  - exists false. eapply Forall_forall in HU; eauto.
Qed.

Lemma derivedImages_complete (appImages : list string) (name : string) :
  name ∈ appImages -> alreadyKustomized context name = false ->
  exists k, k ∈ derivedImages context appImages /\ ImageRule.name k = name.
Proof.
  intros Hin Hk.
  pose proof (fold_renameStep_complete appImages [] name Hin Hk) as H.
  apply list_elem_of_fmap in H as (k & E & Hkin). now exists k.
Qed.

End ResolverFacts.

(** ** Ordering, precedence and deduplication of the final list *)



(** C3.  A declared reference that is neither overridden nor a repetition
    of an earlier one: when it carries a tag its rule is put in front of
    the derived list and has no [newTag]; when it carries none its rule is
    put at the end, with [newTag] set to the context's [imageTag] exactly
    when the context declares one.  Hence in the final list the derived
    rules of tagged references all come before those of untagged ones. *)
Theorem tagged_first_untagged_last
  (context : Context.t) (earlier : list string) (name : string) :
  alreadyKustomized context name = false ->
  name ∉ earlier ->
  (carriesTag name = true ->
   exists k,
     derivedImages context (earlier ++ [name])
       = k :: derivedImages context earlier
     /\ ImageRule.name k = name
     /\ ImageRule.newTag k = None)
  /\ (carriesTag name = false ->
      exists k,
        derivedImages context (earlier ++ [name])
          = derivedImages context earlier ++ [k]
        /\ ImageRule.name k = name
        /\ ImageRule.newTag k
           = if declares (Context.imageTag context)
             then Context.imageTag context else None)
  /\ (forall appImages, exists T U,
        finalizeImageRenames context appImages
          = explicitImages context ++ T ++ U
        /\ derivedImages context appImages = T ++ U
        /\ Forall (fun k => carriesTag (ImageRule.name k) = true) T
        /\ Forall (fun k => carriesTag (ImageRule.name k) = false) U).
Proof.
  intros Hk Hfresh.
  assert (Hnew : name ∉ (ImageRule.name <$> derivedImages context earlier)).
  { intros (k & E & Hin)%list_elem_of_fmap.
    destruct (derivedImages_elem context earlier k Hin) as (tag & _ & H & _).
    rewrite <- E in H. contradiction. }
  assert (Hstep : derivedImages context (earlier ++ [name])
                  = renameStep context (derivedImages context earlier) name).
  { unfold derivedImages. now rewrite fold_left_app. }
  apply alreadyEncountered_false in Hnew.
  unfold renameStep in Hstep. rewrite Hk, Hnew in Hstep.
  unfold carriesTag. repeat split.
  - intros Ht. rewrite Ht in Hstep.
    exists (candidate context name). split; [exact Hstep |].
    unfold candidate. destruct (Context.registry context) as [r|];
      [destruct (truthy r && negb (includes name slash)) |]; now simpl.
  - intros Ht. rewrite Ht in Hstep.
    exists (applyImageTag context (candidate context name)).
    split; [exact Hstep |].
    unfold applyImageTag, candidate, declares, truthyOpt.
    destruct (Context.imageTag context) as [t|],
      (Context.registry context) as [r|];
      repeat match goal with |- context [if ?b then _ else _] => destruct b end;
      now simpl.
  - intros appImages.
    destruct (derivedImages_shape context appImages) as (T & U & E & HT & HU).
    exists T, U. unfold finalizeImageRenames. rewrite E.
    repeat split; (eapply Forall_impl; [eassumption |]);
      intros k (_ & _ & _ & Hc); exact Hc.
Qed.

Lemma tagged_first_untagged_last_witness :
  exists k,
    derivedImages prod (["myservice"] ++ ["myservice:v1"])
      = k :: derivedImages prod ["myservice"]
    /\ ImageRule.name k = "myservice:v1"
    /\ ImageRule.newTag k = None.
Proof.
  refine (proj1 (tagged_first_untagged_last
                   prod ["myservice"] "myservice:v1" eq_refl _) eq_refl).
  intros H. apply list_elem_of_singleton in H. discriminate H.
Defined.

(** C4.  The derived part of the output has no two rules with the same
    name, a rule's name being the reference as it was passed in: every
    declared reference without an override has its own rule, also when it
    shares its repository part with another one. *)
Theorem derived_names_distinct
  (context : Context.t) (appImages : list string) :
  NoDup (ImageRule.name <$> derivedImages context appImages)
  /\ (forall name,
        name ∈ appImages -> alreadyKustomized context name = false ->
        exists k, k ∈ derivedImages context appImages
                  /\ ImageRule.name k = name)
  /\ (forall a b,
        a ∈ appImages -> b ∈ appImages -> a <> b ->
        repoPart a = repoPart b ->
        alreadyKustomized context a = false ->
        alreadyKustomized context b = false ->
        exists ka kb,
          ka ∈ derivedImages context appImages
          /\ kb ∈ derivedImages context appImages
          /\ ImageRule.name ka = a /\ ImageRule.name kb = b /\ ka <> kb).
Proof.
  pose proof (derivedImages_complete context appImages) as Hc.
  split; [| split; [exact Hc |]].
  - apply fold_renameStep_NoDup. constructor.
  - intros a b Ha Hb Hab _ Hka Hkb.
    destruct (Hc a Ha Hka) as (ka & Hina & Ea).
    destruct (Hc b Hb Hkb) as (kb & Hinb & Eb).
    exists ka, kb. repeat split; try assumption. congruence.
Qed.

Lemma derived_names_distinct_witness :
  exists ka kb,
    ka ∈ derivedImages prod ["a"; "a:latest"]
    /\ kb ∈ derivedImages prod ["a"; "a:latest"]
    /\ ImageRule.name ka = "a" /\ ImageRule.name kb = "a:latest" /\ ka <> kb.
Proof.
  refine (proj2 (proj2 (derived_names_distinct prod ["a"; "a:latest"]))
            "a" "a:latest" _ _ _ eq_refl eq_refl eq_refl).
  - left.
  - right. left.
  - discriminate.
Defined.

(** C5.  Under a context that declares a registry, the rule derived for a
    declared reference without an override has
    [newName = registry + "/" + repoPart] exactly when the repository part
    has no path separator, and no [newName] otherwise; the first scenario
    of the specification is an instance. *)
Theorem registry_prefix_for_short_names
  (context : Context.t) (registry : string) (appImages : list string)
  (name : string) :
  Context.registry context = Some registry ->
  declares (Context.registry context) = true ->
  name ∈ appImages ->
  alreadyKustomized context name = false ->
  (exists k, k ∈ derivedImages context appImages /\ ImageRule.name k = name)
  /\ (forall k,
        k ∈ derivedImages context appImages -> ImageRule.name k = name ->
        ImageRule.newName k
        = if includes (repoPart name) slash then None
          else Some (registry +:+ "/" +:+ repoPart name))
  /\ finalizeImageRenames dev ["myservice"]
     = [ImageRule.mk "myservice" (Some "reg.example.com/myservice") None].
Proof.
  intros Hreg Hdecl Hin Hk. split; [| split; [| reflexivity]].
  - exact (derivedImages_complete context appImages name Hin Hk).
  - intros k Hkin E.
    destruct (derivedImages_elem context appImages k Hkin) as (tag & Hd & _).
    rewrite E in Hd. rewrite Hd, includes_slash_repoPart.
    rewrite Hreg in Hdecl. simpl in Hdecl.
    unfold derivedRule, applyImageTag, candidate. rewrite Hreg, Hdecl.
    destruct (truthyOpt (tagPart name)), (Context.imageTag context) as [t|],
      (includes name slash); simpl;
      repeat match goal with |- context [if ?b then _ else _] => destruct b end;
      reflexivity.
Qed.

Lemma registry_prefix_for_short_names_witness :
  (exists k, k ∈ derivedImages dev ["ns/tool:1"; "myservice"]
             /\ ImageRule.name k = "myservice")
  /\ (forall k,
        k ∈ derivedImages dev ["ns/tool:1"; "myservice"] ->
        ImageRule.name k = "myservice" ->
        ImageRule.newName k
        = if includes (repoPart "myservice") slash then None
          else Some ("reg.example.com" +:+ "/" +:+ repoPart "myservice"))
  /\ finalizeImageRenames dev ["myservice"]
     = [ImageRule.mk "myservice" (Some "reg.example.com/myservice") None].
Proof.
  refine (registry_prefix_for_short_names
            dev "reg.example.com" ["ns/tool:1"; "myservice"] "myservice"
            eq_refl eq_refl _ eq_refl).
  right. left.
Defined.

(** A repeated reference does not change the result. *)
Lemma finalizeImageRenames_repeat
  (context : Context.t) (l1 l2 l3 : list string) (n : string) :
  finalizeImageRenames context (l1 ++ n :: l2 ++ n :: l3)
  = finalizeImageRenames context (l1 ++ n :: l2 ++ l3).
Proof.
  unfold finalizeImageRenames, derivedImages.
  now rewrite fold_renameStep_repeat.
Qed.

(** ** The store-level method: what it reads, writes and returns *)

Module HeapFacts.

(** The function of the previous part, under a name that the store-level
    method does not hide. *)
Local Abbreviation resolve := finalizeImageRenames (only parsing).

Import Heap.

Section Views.

Implicit Types σ : gmap loc object.

Lemma ruleAt_Some σ l k : ruleAt σ l = Some k <-> σ !! l = Some (Rule k).
Proof.
  unfold ruleAt. destruct (σ !! l) as [[]|]; split; congruence.
Qed.

Lemma elemsAt_Some σ a elems :
  elemsAt σ a = Some elems <-> σ !! a = Some (Array elems).
Proof.
  unfold elemsAt. destruct (σ !! a) as [[]|]; split; congruence.
Qed.

Lemma ruleAt_mono σ σ' l k :
  σ ⊆ σ' -> ruleAt σ l = Some k -> ruleAt σ' l = Some k.
Proof.
  rewrite !ruleAt_Some. intros Hsub H.
  eapply lookup_weaken; eassumption.
Qed.

Lemma rulesAt_mono σ σ' elems ks :
  σ ⊆ σ' -> rulesAt σ elems = Some ks -> rulesAt σ' elems = Some ks.
Proof.
  intros Hsub. revert ks; induction elems as [|l elems IH]; intros ks;
    simpl; [tauto |].
  destruct (ruleAt σ l) as [k|] eqn:Hk; [| discriminate].
  destruct (rulesAt σ elems) as [ks'|]; [| discriminate].
  intros [= <-].
  now rewrite (ruleAt_mono _ _ _ _ Hsub Hk), (IH ks' eq_refl).
Qed.

Lemma arrayAt_mono σ σ' a ks :
  σ ⊆ σ' -> arrayAt σ a = Some ks -> arrayAt σ' a = Some ks.
Proof.
  intros Hsub. unfold arrayAt.
  destruct (elemsAt σ a) as [elems|] eqn:He; [| discriminate].
  apply elemsAt_Some in He.
  pose proof (lookup_weaken _ _ _ _ He Hsub) as He'.
  apply elemsAt_Some in He'. rewrite He'.
  now apply rulesAt_mono.
Qed.

Lemma contextAt_mono σ σ' c ctx :
  σ ⊆ σ' -> contextAt σ c = Some ctx -> contextAt σ' c = Some ctx.
Proof.
  intros Hsub. unfold contextAt.
  destruct (σ !! c) as [[| |co]|] eqn:Hc; try discriminate.
  rewrite (lookup_weaken _ _ _ _ Hc Hsub).
  destruct (images co) as [a|]; [| tauto].
  destruct (arrayAt σ a) as [rules|] eqn:Ha; [| discriminate].
  now rewrite (arrayAt_mono _ _ _ _ Hsub Ha).
Qed.

Lemma explicitRefs_mono σ σ' c ctx :
  σ ⊆ σ' -> contextAt σ c = Some ctx ->
  explicitRefs σ' c = explicitRefs σ c.
Proof.
  intros Hsub. unfold contextAt, explicitRefs.
  destruct (σ !! c) as [[| |co]|] eqn:Hc; try discriminate.
  rewrite (lookup_weaken _ _ _ _ Hc Hsub).
  destruct (images co) as [a|]; [| reflexivity].
  unfold arrayAt. destruct (elemsAt σ a) as [elems|] eqn:He;
    [| discriminate].
  intros _. apply elemsAt_Some in He.
  pose proof (lookup_weaken _ _ _ _ He Hsub) as He'.
  apply elemsAt_Some in He'. now rewrite He'.
Qed.

(** Every reference of a readable array holds a rule. *)
Lemma rulesAt_elem σ elems ks l :
  rulesAt σ elems = Some ks -> l ∈ elems -> exists k, σ !! l = Some (Rule k).
Proof.
  revert ks; induction elems as [|x elems IH]; intros ks H Hl;
    [inversion Hl |].
  simpl in H.
  destruct (ruleAt σ x) as [k|] eqn:Hk; [| discriminate].
  destruct (rulesAt σ elems) as [ks'|]; [| discriminate].
  apply elem_of_cons in Hl as [-> | Hl].
  - exists k. now apply ruleAt_Some.
  - eapply IH; eauto.
Qed.

Lemma rulesAt_insert_other σ elems l o :
  l ∉ elems -> rulesAt (<[l := o]> σ) elems = rulesAt σ elems.
Proof.
  induction elems as [|x elems IH]; intros Hl; simpl; [reflexivity |].
  apply not_elem_of_cons in Hl as [Hx Hl].
  rewrite (IH Hl). unfold ruleAt.
  rewrite lookup_insert_ne by exact Hx. reflexivity.
Qed.

Lemma rulesAt_app σ e1 e2 k1 k2 :
  rulesAt σ e1 = Some k1 -> rulesAt σ e2 = Some k2 ->
  rulesAt σ (e1 ++ e2) = Some (k1 ++ k2).
Proof.
  revert k1; induction e1 as [|x e1 IH]; intros k1; simpl.
  - now intros [= <-].
  - destruct (ruleAt σ x) as [k|]; [| discriminate].
    destruct (rulesAt σ e1) as [ks|]; [| discriminate].
    intros [= <-] H2. now rewrite (IH ks eq_refl H2).
Qed.

End Views.

Lemma bind_Some {A B : Type} (m : run A) (f : A -> run B) σ a σ1 :
  m σ = Some (a, σ1) -> bind m f σ = f a σ1.
Proof. unfold bind. now intros ->. Qed.

Lemma findIn_ok σ (p : ImageRule.t -> bool) elems ks :
  rulesAt σ elems = Some ks ->
  exists o, findIn p elems σ = Some (o, σ)
            /\ found o = found (List.find p ks).
Proof.
  revert ks; induction elems as [|l elems IH]; intros ks; simpl.
  - intros [= <-]. now exists None.
  - destruct (ruleAt σ l) as [k|] eqn:Hk; [| discriminate].
    destruct (rulesAt σ elems) as [ks'|]; [| discriminate].
    intros [= <-]. apply ruleAt_Some in Hk.
    rewrite (bind_Some _ _ σ k σ) by (unfold getRule; now rewrite Hk).
    simpl. destruct (p k); [now exists (Some l) | now apply IH].
Qed.

Lemma find_ok σ a (p : ImageRule.t -> bool) ks :
  arrayAt σ a = Some ks ->
  exists o, find a p σ = Some (o, σ) /\ found o = found (List.find p ks).
Proof.
  unfold arrayAt, find.
  destruct (elemsAt σ a) as [elems|] eqn:He; [| discriminate].
  apply elemsAt_Some in He. intros Hks.
  rewrite (bind_Some _ _ σ elems σ) by (unfold getArray; now rewrite He).
  now apply findIn_ok.
Qed.

(** *** One run from a store [σ0] holding the context at [c] *)

Section Run.

Variable σ0 : gmap loc object.
Variable c : loc.
Variable ctx : Context.t.
Hypothesis Hctx : contextAt σ0 c = Some ctx.

Lemma getContext_ok σ :
  σ0 ⊆ σ ->
  exists co,
    getContext c σ = Some (co, σ)
    /\ σ0 !! c = Some (Ctx co)
    /\ registry co = Context.registry ctx
    /\ imageTag co = Context.imageTag ctx
    /\ match images co with
       | Some a => exists rules, arrayAt σ0 a = Some rules
                                /\ Context.images ctx = Some rules
       | None => Context.images ctx = None
       end.
Proof.
  intros Hsub. unfold contextAt in Hctx.
  destruct (σ0 !! c) as [[| |co]|] eqn:Hc; try discriminate.
  exists co. unfold getContext.
  rewrite (lookup_weaken _ _ _ _ Hc Hsub).
  split; [reflexivity |]. split; [reflexivity |].
  destruct (images co) as [a|].
  - destruct (arrayAt σ0 a) as [rules|]; [| discriminate].
    injection Hctx as <-. simpl. repeat split. now exists rules.
  - injection Hctx as <-. simpl. tauto.
Qed.

Lemma inv_new_rule im σ elems ks k r (g : list loc -> list loc)
  (h : list ImageRule.t -> list ImageRule.t) :
  inv σ0 im σ elems ks ->
  σ !! k = None ->
  (g elems = k :: elems /\ h ks = r :: ks)
  \/ (g elems = elems ++ [k] /\ h ks = ks ++ [r]) ->
  inv σ0 im (<[im := Array (g elems)]> (<[k := Rule r]> σ)) (g elems) (h ks).
Proof.
  intros (Hsub & Him0 & Him & Hks & Hnew) Hk Hgh.
  assert (Hkim : k <> im) by congruence.
  assert (Hk0 : σ0 !! k = None).
  { destruct (σ0 !! k) eqn:E; [| reflexivity].
    rewrite (lookup_weaken _ _ _ _ E Hsub) in Hk. discriminate. }
  assert (Hkel : k ∉ elems).
  { intros Hin. destruct (rulesAt_elem _ _ _ _ Hks Hin) as (x & Hx).
    congruence. }
  assert (Himel : im ∉ elems).
  { intros Hin. destruct (rulesAt_elem _ _ _ _ Hks Hin) as (x & Hx).
    congruence. }
  assert (Hold : rulesAt (<[im := Array (g elems)]> (<[k := Rule r]> σ))
                   elems = Some ks).
  { now rewrite !rulesAt_insert_other. }
  assert (Hr : ruleAt (<[im := Array (g elems)]> (<[k := Rule r]> σ)) k
               = Some r).
  { apply ruleAt_Some.
    rewrite lookup_insert_ne by congruence. apply lookup_insert_eq. }
  split; [| split; [exact Him0 | split; [apply lookup_insert_eq |]]].
  - apply insert_subseteq_r; [exact Him0 |].
    apply insert_subseteq_r; [exact Hk0 | exact Hsub].
  - destruct Hgh as [[Eg Eh] | [Eg Eh]]; rewrite Eg, Eh in *.
    + split; [cbn [rulesAt]; now rewrite Hr, Hold |].
      constructor; assumption.
    + split.
      * apply rulesAt_app; [exact Hold |]. cbn [rulesAt]. now rewrite Hr.
      * apply Forall_app. split; [exact Hnew |].
        constructor; [exact Hk0 | constructor].
Qed.

Lemma alloc_fresh σ (o : object) :
  exists k, alloc o σ = Some (k, <[k := o]> σ) /\ σ !! k = None.
Proof.
  exists (fresh (dom σ)). split; [reflexivity |].
  apply not_elem_of_dom, is_fresh.
Qed.

Lemma subseteq_insert_new σ k (o : object) :
  σ0 ⊆ σ -> σ !! k = None -> σ0 ⊆ <[k := o]> σ.
Proof.
  intros Hsub Hk. apply insert_subseteq_r; [| exact Hsub].
  destruct (σ0 !! k) eqn:E; [| reflexivity].
  rewrite (lookup_weaken _ _ _ _ E Hsub) in Hk. discriminate.
Qed.

(** One iteration refines [renameStep]. *)
Lemma renameBody_ok im σ elems ks (name : string) :
  inv σ0 im σ elems ks ->
  exists σ' elems',
    renameBody c im name σ = Some (tt, σ')
    /\ inv σ0 im σ' elems' (renameStep ctx ks name).
Proof.
  intros Hinv. pose proof Hinv as (Hsub & Him0 & Him & Hks & Hnew).
  destruct (getContext_ok σ Hsub) as (co & Hget & Hc0 & Hreg & Htag & Himg).
  unfold renameBody. rewrite (bind_Some _ _ _ _ _ Hget).
  assert (Hk : exists o,
             match images co with
             | Some explicit =>
                 find explicit
                   (fun image =>
                      String.eqb (ImageRule.name image) name
                      || String.eqb (ImageRule.name image) (repoPart name))
             | None => ret None
             end σ = Some (o, σ)
             /\ found o = alreadyKustomized ctx name).
  { unfold alreadyKustomized. destruct (images co) as [a|].
    - destruct Himg as (rules & Ha & ->).
      apply find_ok. eapply arrayAt_mono; eassumption.
    - rewrite Himg. now exists None. }
  destruct Hk as (o & Hf & Ho).
  rewrite (bind_Some _ _ _ _ _ Hf), Ho. unfold renameStep.
  destruct (alreadyKustomized ctx name).
  { exists σ, elems. split; [reflexivity | exact Hinv]. }
  destruct (find_ok σ im
              (fun image => String.eqb (ImageRule.name image) name) ks)
    as (o2 & Hf2 & Ho2).
  { unfold arrayAt. now rewrite (proj2 (elemsAt_Some σ im elems) Him). }
  rewrite (bind_Some _ _ _ _ _ Hf2), Ho2.
  fold (alreadyEncountered ks name).
  destruct (alreadyEncountered ks name).
  { exists σ, elems. split; [reflexivity | exact Hinv]. }
  destruct (alloc_fresh σ (Rule (ImageRule.mk name None None)))
    as (k & Halloc & Hk).
  rewrite (bind_Some _ _ _ _ _ Halloc).
  assert (Hkim : k <> im) by congruence.
  destruct (getContext_ok _ (subseteq_insert_new σ k
                               (Rule (ImageRule.mk name None None)) Hsub Hk))
    as (co1 & Hget1 & Hc1 & _).
  assert (co1 = co) by congruence. subst co1.
  rewrite (bind_Some _ _ _ _ _ Hget1).
  assert (Hcand :
           match registry co with
           | Some registry =>
               if truthy registry && negb (includes name slash)
               then setRule k
                      (fun r => ImageRule.withNewName r
                                  (registry +:+ "/" +:+ repoPart name))
               else ret tt
           | None => ret tt
           end (<[k := Rule (ImageRule.mk name None None)]> σ)
           = Some (tt, <[k := Rule (candidate ctx name)]> σ)).
  { unfold candidate. rewrite <- Hreg.
    destruct (registry co) as [r|]; [| reflexivity].
    destruct (truthy r && negb (includes name slash)); [| reflexivity].
    unfold setRule. rewrite lookup_insert_eq, insert_insert_eq.
    reflexivity. }
  rewrite (bind_Some _ _ _ _ _ Hcand).
  destruct (truthyOpt (tagPart name)).
  - exists (<[im := Array (k :: elems)]>
              (<[k := Rule (candidate ctx name)]> σ)), (k :: elems).
    split.
    + unfold unshift, setArray.
      rewrite lookup_insert_ne by exact Hkim. now rewrite Him.
    + apply (inv_new_rule im σ elems ks k (candidate ctx name)
               (cons k) (cons (candidate ctx name)) Hinv Hk).
      left. split; reflexivity.
  - destruct (getContext_ok _ (subseteq_insert_new σ k
                                 (Rule (candidate ctx name)) Hsub Hk))
      as (co2 & Hget2 & Hc2 & _).
    assert (co2 = co) by congruence. subst co2.
    rewrite (bind_Some _ _ _ _ _ Hget2).
    assert (Htagged :
             match imageTag co with
             | Some imageTag =>
                 if truthy imageTag
                 then setRule k (fun r => ImageRule.withNewTag r imageTag)
                 else ret tt
             | None => ret tt
             end (<[k := Rule (candidate ctx name)]> σ)
             = Some (tt, <[k := Rule (applyImageTag ctx
                                        (candidate ctx name))]> σ)).
    { unfold applyImageTag. rewrite <- Htag.
      destruct (imageTag co) as [t|]; [| reflexivity].
      destruct (truthy t); [| reflexivity].
      unfold setRule. rewrite lookup_insert_eq, insert_insert_eq.
      reflexivity. }
    rewrite (bind_Some _ _ _ _ _ Htagged).
    exists (<[im := Array (elems ++ [k])]>
              (<[k := Rule (applyImageTag ctx (candidate ctx name))]> σ)),
      (elems ++ [k]).
    split.
    + unfold push, setArray.
      rewrite lookup_insert_ne by exact Hkim. now rewrite Him.
    + apply (inv_new_rule im σ elems ks k
               (applyImageTag ctx (candidate ctx name))
               (fun e => e ++ [k])
               (fun l => l ++ [applyImageTag ctx (candidate ctx name)])
               Hinv Hk).
      right. split; reflexivity.
Qed.

(** The loop refines the fold of [renameStep]. *)
Lemma forEach_ok im (appImages : list string) σ elems ks :
  inv σ0 im σ elems ks ->
  exists σ' elems',
    forEach appImages (renameBody c im) σ = Some (tt, σ')
    /\ inv σ0 im σ' elems' (fold_left (renameStep ctx) appImages ks).
Proof.
  revert σ elems ks; induction appImages as [|name rest IH];
    intros σ elems ks Hinv; simpl.
  - exists σ, elems. split; [reflexivity | exact Hinv].
  - destruct (renameBody_ok im σ elems ks name Hinv)
      as (σ1 & elems1 & Hrun & Hinv1).
    rewrite (bind_Some _ _ _ _ _ Hrun). exact (IH σ1 elems1 _ Hinv1).
Qed.

(** The whole method: it returns, the array it returns is new, starts
    with the references of [context.images] and reads as the list the
    pure function computes; no object of [σ0] is changed. *)
Lemma finalizeImageRenames_run (appImages : list string) :
  exists r σ' derived,
    Heap.finalizeImageRenames c appImages σ0 = Some (r, σ')
    /\ σ0 ⊆ σ'
    /\ σ0 !! r = None
    /\ σ' !! r = Some (Array (explicitRefs σ0 c ++ derived))
    /\ Forall (fun l => σ0 !! l = None) derived
    /\ arrayAt σ' r = Some (resolve ctx appImages).
Proof.
  unfold Heap.finalizeImageRenames.
  destruct (alloc_fresh σ0 (Array [])) as (im & Halloc & Him0).
  rewrite (bind_Some _ _ _ _ _ Halloc).
  assert (Hinv0 : inv σ0 im (<[im := Array []]> σ0) [] []).
  { split; [now apply insert_subseteq |].
    split; [exact Him0 |]. split; [apply lookup_insert_eq |].
    split; [reflexivity | constructor]. }
  destruct (forEach_ok im appImages _ _ _ Hinv0)
    as (σ2 & elems & Hloop & Hinv).
  rewrite (bind_Some _ _ _ _ _ Hloop).
  fold (derivedImages ctx appImages) in Hinv.
  destruct Hinv as (Hsub & _ & Him & Hks & Hnew).
  destruct (getContext_ok σ2 Hsub) as (co & Hget & Hc0 & _ & _ & Himg).
  rewrite (bind_Some _ _ _ _ _ Hget).
  unfold resolve, explicitImages, explicitRefs.
  rewrite Hc0. destruct (images co) as [a|].
  - destruct Himg as (rules & Ha & ->).
    unfold arrayAt in Ha.
    destruct (elemsAt σ0 a) as [ea|] eqn:Hea; [| discriminate].
    apply elemsAt_Some in Hea.
    rewrite (bind_Some _ _ σ2 a σ2) by reflexivity.
    unfold concat.
    rewrite (bind_Some _ _ σ2 ea σ2)
      by (unfold getArray; now rewrite (lookup_weaken _ _ _ _ Hea Hsub)).
    rewrite (bind_Some _ _ σ2 elems σ2)
      by (unfold getArray; now rewrite Him).
    destruct (alloc_fresh σ2 (Array (ea ++ elems))) as (r & Hr & Hr2).
    exists r, (<[r := Array (ea ++ elems)]> σ2), elems.
    assert (Hsub' : σ0 ⊆ <[r := Array (ea ++ elems)]> σ2)
      by now apply subseteq_insert_new.
    split; [exact Hr |]. split; [exact Hsub' |].
    split.
    { destruct (σ0 !! r) eqn:E; [| reflexivity].
      rewrite (lookup_weaken _ _ _ _ E Hsub) in Hr2. discriminate. }
    split; [apply lookup_insert_eq |]. split; [exact Hnew |].
    unfold arrayAt, elemsAt. rewrite lookup_insert_eq. simpl.
    apply rulesAt_app.
    + eapply rulesAt_mono; eassumption.
    + eapply rulesAt_mono; [| exact Hks]. now apply insert_subseteq.
  - rewrite Himg.
    destruct (alloc_fresh σ2 (Array [])) as (e & He & He2).
    rewrite (bind_Some _ _ _ _ _ He).
    assert (Heim : e <> im) by congruence.
    unfold concat.
    rewrite (bind_Some _ _ _ [] (<[e := Array []]> σ2))
      by (unfold getArray; now rewrite lookup_insert_eq).
    rewrite (bind_Some _ _ _ elems (<[e := Array []]> σ2))
      by (unfold getArray; rewrite lookup_insert_ne by exact Heim;
          now rewrite Him).
    destruct (alloc_fresh (<[e := Array []]> σ2) (Array ([] ++ elems)))
      as (r & Hr & Hr2).
    assert (Hsub1 : σ0 ⊆ <[e := Array []]> σ2)
      by now apply subseteq_insert_new.
    assert (Hsub' : σ0 ⊆ <[r := Array ([] ++ elems)]> (<[e := Array []]> σ2)).
    { apply insert_subseteq_r; [| exact Hsub1].
      destruct (σ0 !! r) eqn:E; [| reflexivity].
      rewrite (lookup_weaken _ _ _ _ E Hsub1) in Hr2. discriminate. }
    exists r, (<[r := Array ([] ++ elems)]> (<[e := Array []]> σ2)), elems.
    split; [exact Hr |]. split; [exact Hsub' |].
    split.
    { destruct (σ0 !! r) eqn:E; [| reflexivity].
      rewrite (lookup_weaken _ _ _ _ E Hsub1) in Hr2. discriminate. }
    split; [apply lookup_insert_eq |]. split; [exact Hnew |].
    unfold arrayAt, elemsAt. rewrite lookup_insert_eq. simpl.
    eapply rulesAt_mono; [| exact Hks].
    etrans; [| now apply insert_subseteq]. now apply insert_subseteq.
Qed.

End Run.

(** C10.  A call of [finalizeImageRenames] changes no object that
    existed before it, so the context, its [images] array and the rule
    objects in it are as they were; the array returned is a new one whose
    first elements are the very rule objects of [context.images], followed
    by rule objects created by the call. *)
Theorem finalizeImageRenames_frame
  (σ : gmap loc object) (c : loc) (ctx : Context.t)
  (appImages : list string) :
  contextAt σ c = Some ctx ->
  exists r σ' derived,
    Heap.finalizeImageRenames c appImages σ = Some (r, σ')
    /\ (forall l o, σ !! l = Some o -> σ' !! l = Some o)
    /\ contextAt σ' c = Some ctx
    /\ explicitRefs σ' c = explicitRefs σ c
    /\ σ !! r = None
    /\ σ' !! r = Some (Array (explicitRefs σ c ++ derived))
    /\ Forall (fun l => σ !! l = None) derived.
Proof.
  intros Hctx.
  destruct (finalizeImageRenames_run σ c ctx Hctx appImages)
    as (r & σ' & derived & Hrun & Hsub & Hr & Hr' & Hnew & _).
  exists r, σ', derived.
  split; [exact Hrun |].
  split; [intros l o Hl; eapply lookup_weaken; eassumption |].
  split; [eapply contextAt_mono; eassumption |].
  split; [eapply explicitRefs_mono; eassumption |].
  tauto.
Qed.

Lemma finalizeImageRenames_frame_witness :
  exists r σ' derived,
    Heap.finalizeImageRenames 1%positive ["myservice"; "a:1"; "b"] sample
      = Some (r, σ')
    /\ (forall l o, sample !! l = Some o -> σ' !! l = Some o)
    /\ contextAt σ' 1%positive = Some sampleContext
    /\ explicitRefs σ' 1%positive = explicitRefs sample 1%positive
    /\ sample !! r = None
    /\ σ' !! r = Some (Array (explicitRefs sample 1%positive ++ derived))
    /\ Forall (fun l => sample !! l = None) derived.
Proof.
  exact (finalizeImageRenames_frame sample 1%positive sampleContext
           ["myservice"; "a:1"; "b"] eq_refl).
Defined.

(** C6.  Two calls in a row on the same context and the same sequence
    return arrays that read as the same list, the one the function
    computes; and a sequence in which a reference occurs a second time
    gives the same list as the sequence without that second occurrence,
    for the function and for the method run from the same store. *)
Theorem finalizeImageRenames_deterministic
  (σ : gmap loc object) (c : loc) (ctx : Context.t)
  (appImages : list string) :
  contextAt σ c = Some ctx ->
  (exists r1 σ1 r2 σ2,
      Heap.finalizeImageRenames c appImages σ = Some (r1, σ1)
      /\ Heap.finalizeImageRenames c appImages σ1 = Some (r2, σ2)
      /\ arrayAt σ2 r1 = arrayAt σ2 r2
      /\ arrayAt σ2 r2 = Some (resolve ctx appImages))
  /\ (forall l1 l2 l3 n,
        resolve ctx (l1 ++ n :: l2 ++ n :: l3)
        = resolve ctx (l1 ++ n :: l2 ++ l3))
  /\ (forall l1 l2 l3 n,
        exists ra σa rb σb,
          Heap.finalizeImageRenames c (l1 ++ n :: l2 ++ n :: l3) σ
            = Some (ra, σa)
          /\ Heap.finalizeImageRenames c (l1 ++ n :: l2 ++ l3) σ
             = Some (rb, σb)
          /\ arrayAt σa ra = arrayAt σb rb).
Proof.
  intros Hctx. split; [| split].
  - destruct (finalizeImageRenames_run σ c ctx Hctx appImages)
      as (r1 & σ1 & d1 & Hrun1 & Hsub1 & _ & _ & _ & Hread1).
    pose proof (contextAt_mono _ _ _ _ Hsub1 Hctx) as Hctx1.
    destruct (finalizeImageRenames_run σ1 c ctx Hctx1 appImages)
      as (r2 & σ2 & d2 & Hrun2 & Hsub2 & _ & _ & _ & Hread2).
    exists r1, σ1, r2, σ2.
    split; [exact Hrun1 |]. split; [exact Hrun2 |].
    split; [| exact Hread2].
  rewrite Hread2. eapply arrayAt_mono; eassumption.
  - intros l1 l2 l3 n. apply finalizeImageRenames_repeat.
  - intros l1 l2 l3 n.
    destruct (finalizeImageRenames_run σ c ctx Hctx
                (l1 ++ n :: l2 ++ n :: l3))
      as (ra & σa & da & Hruna & _ & _ & _ & _ & Hreada).
    destruct (finalizeImageRenames_run σ c ctx Hctx (l1 ++ n :: l2 ++ l3))
      as (rb & σb & db & Hrunb & _ & _ & _ & _ & Hreadb).
    exists ra, σa, rb, σb.
    split; [exact Hruna |]. split; [exact Hrunb |].
    rewrite Hreada, Hreadb. f_equal. apply finalizeImageRenames_repeat.
Qed.

Lemma finalizeImageRenames_deterministic_witness :
  exists r1 σ1 r2 σ2,
    Heap.finalizeImageRenames 1%positive ["b"; "a:1"; "b"] sample
      = Some (r1, σ1)
    /\ Heap.finalizeImageRenames 1%positive ["b"; "a:1"; "b"] σ1
       = Some (r2, σ2)
    /\ arrayAt σ2 r1 = arrayAt σ2 r2
    /\ arrayAt σ2 r2 = Some (resolve sampleContext ["b"; "a:1"; "b"]).
Proof.
  exact (proj1 (finalizeImageRenames_deterministic
                  sample 1%positive sampleContext ["b"; "a:1"; "b"] eq_refl)).
Defined.

End HeapFacts.

(** ** The layer registry: base references and classification *)

Module ArchiverFacts.
Import SolsaArchiver.

Lemma onLayer_Some (sa : t) (layer : string) (f : Layer.t -> Layer.t) :
  is_Some (layers sa !! layer) \/ Js.inherited layer = false ->
  onLayer sa layer f
  = Some (mk (outputRoot sa)
            (<[layer := f (default (Layer.new layer) (layers sa !! layer))]>
               (layers sa))).
Proof.
  intros H. unfold onLayer, getLayer.
  destruct (layers sa !! layer) as [l|] eqn:E; simpl; [reflexivity |].
  destruct H as [[x Hx] | ->]; [discriminate |].
  simpl. now rewrite insert_insert_eq.
Qed.

Lemma onLayer_inv (sa sa' : t) (layer : string) (f : Layer.t -> Layer.t) :
  onLayer sa layer f = Some sa' ->
  sa' = mk (outputRoot sa)
          (<[layer := f (default (Layer.new layer) (layers sa !! layer))]>
             (layers sa)).
Proof.
  unfold onLayer, getLayer.
  destruct (layers sa !! layer) as [l|] eqn:E; simpl.
  - now intros [= <-].
  - destruct (Js.inherited layer); [discriminate |].
    simpl. rewrite insert_insert_eq. now intros [= <-].
Qed.

(** An update through [getLayer] touches the named layer only. *)
Lemma onLayer_effect (sa : t) (layer : string) (f : Layer.t -> Layer.t) :
  usable sa layer ->
  exists sa',
    onLayer sa layer f = Some sa'
    /\ forall key,
        layers sa' !! key
        = if decide (key = layer)
          then Some (f (default (Layer.new layer) (layers sa !! layer)))
          else layers sa !! key.
Proof.
  intros Hu. rewrite (onLayer_Some sa layer f Hu).
  eexists. split; [reflexivity |]. intros key. simpl.
  rewrite lookup_insert. repeat case_decide; congruence.
Qed.

(** *** Base references *)

(** C7, counterexample.  A configuration whose context is called
    [base] makes the base layer refer to itself, and one that lists a
    context twice gives that layer two base references; with a context
    called [toString] the lookup in [getLayer] finds the inherited method
    and [finalize] raises before any manifest is written. *)
Lemma finalize_base_counterexample :
  (exists p manifests k,
      synthesize "solsa" [baseNamed] emptyApp 0 = Some (p, manifests)
      /\ manifests !! "base" = Some k
      /\ kBases k = ["./../base"])
  /\ (exists p manifests k,
        synthesize "solsa" [dev; dev] emptyApp 0 = Some (p, manifests)
        /\ manifests !! "dev" = Some k
        /\ kBases k = ["./../base"; "./../base"])
  /\ synthesize "solsa" [Context.mk "toString" None None None] emptyApp 0
     = None.
Proof.
  split; [| split; [| reflexivity]];
    do 3 eexists; (split; [reflexivity |]); split; reflexivity.
Qed.

(** *** Classification of the items of [getResources] *)

(** The three tables of every layer after one item, in terms of the
    assignment [Js.assign] that lines 154, 158 and 162 make. *)
Lemma classify_tables (p : Process) (item : Item) :
  (Js.truthy (obj item) = true ->
   usable (sa p) (orBase (layer item)) ->
   exists p',
     classify p item = Some p'
     /\ errors p' = errors p
     /\ forall key,
         resourcesOf (sa p') key
         = (if decide (key = orBase (layer item))
            then Js.assign (itemName item) (obj item) (resourcesOf (sa p) key)
            else resourcesOf (sa p) key)
         /\ patchesJSONOf (sa p') key = patchesJSONOf (sa p) key
         /\ patchesOf (sa p') key = patchesOf (sa p) key)
  /\ (Js.truthy (obj item) = false ->
      Js.truthy (JSONPatch item) = true ->
      forall tg,
        JSONPatchTarget item = Some tg ->
        usable (sa p) (orBase (layer item)) ->
        exists p',
          classify p item = Some p'
          /\ errors p' = errors p
          /\ forall key,
              patchesJSONOf (sa p') key
              = (if decide (key = orBase (layer item))
                 then Js.assign (path tg) (JSONPatch item, tg)
                        (patchesJSONOf (sa p) key)
                 else patchesJSONOf (sa p) key)
              /\ resourcesOf (sa p') key = resourcesOf (sa p) key
              /\ patchesOf (sa p') key = patchesOf (sa p) key)
  /\ (Js.truthy (obj item) = false ->
      Js.truthy (JSONPatch item) = false ->
      Js.truthy (patch item) = true ->
      usable (sa p) (orBase (layer item)) ->
      exists p',
        classify p item = Some p'
        /\ errors p' = errors p
        /\ forall key,
            patchesOf (sa p') key
            = (if decide (key = orBase (layer item))
               then Js.assign (itemName item) (patch item)
                      (patchesOf (sa p) key)
               else patchesOf (sa p) key)
            /\ resourcesOf (sa p') key = resourcesOf (sa p) key
            /\ patchesJSONOf (sa p') key = patchesJSONOf (sa p) key)
  /\ (Js.truthy (obj item) = false ->
      Js.truthy (JSONPatch item) = false ->
      Js.truthy (patch item) = false ->
      classify p item = Some p).
Proof.
  assert (Hobs : forall (f : Layer.t -> Layer.t) sa' name,
             (forall key,
                 layers sa' !! key
                 = if decide (key = name)
                   then Some (f (default (Layer.new name)
                                   (layers (sa p) !! name)))
                   else layers (sa p) !! key) ->
             forall key,
               (resourcesOf sa' key
                = if decide (key = name)
                  then Layer.resources
                         (f (default (Layer.new name) (layers (sa p) !! name)))
                  else resourcesOf (sa p) key)
               /\ (patchesJSONOf sa' key
                   = if decide (key = name)
                     then Layer.patchesJSON
                            (f (default (Layer.new name)
                                  (layers (sa p) !! name)))
                     else patchesJSONOf (sa p) key)
               /\ (patchesOf sa' key
                   = if decide (key = name)
                     then Layer.patches
                            (f (default (Layer.new name)
                                  (layers (sa p) !! name)))
                     else patchesOf (sa p) key)).
  { intros f sa' name H key. unfold resourcesOf, patchesJSONOf, patchesOf.
    rewrite H. case_decide; tauto. }
  assert (Hdef : forall name,
             Layer.resources (default (Layer.new name) (layers (sa p) !! name))
             = resourcesOf (sa p) name
             /\ Layer.patchesJSON
                  (default (Layer.new name) (layers (sa p) !! name))
                = patchesJSONOf (sa p) name
             /\ Layer.patches
                  (default (Layer.new name) (layers (sa p) !! name))
                = patchesOf (sa p) name).
  { intros name. unfold resourcesOf, patchesJSONOf, patchesOf.
    destruct (layers (sa p) !! name); simpl; tauto. }
  unfold classify. repeat split.
  - intros -> Hu. unfold addResource.
    pose (f := (fun l => Layer.withResources l
              (Js.assign (itemName item) (obj item)
                 (Layer.resources l)))).
    destruct (onLayer_effect (sa p) (orBase (layer item)) f Hu)
      as (sa' & Hrun & Hl).
    unfold f in Hrun. rewrite Hrun.
    eexists. split; [reflexivity |]. split; [reflexivity |].
    intros key. simpl.
    destruct (Hobs f sa' (orBase (layer item)) Hl key) as (-> & -> & ->).
    subst f.
    destruct (Hdef (orBase (layer item))) as (E1 & E2 & E3).
    case_decide; subst; simpl; rewrite ?E1, ?E2, ?E3; tauto.
  - intros -> -> tg -> Hu. unfold addJSONPatch.
    pose (f := (fun l => Layer.withPatchesJSON l
              (Js.assign (path tg) (JSONPatch item, tg)
                 (Layer.patchesJSON l)))).
    destruct (onLayer_effect (sa p) (orBase (layer item)) f Hu)
      as (sa' & Hrun & Hl).
    unfold f in Hrun. rewrite Hrun.
    eexists. split; [reflexivity |]. split; [reflexivity |].
    intros key. simpl.
    destruct (Hobs f sa' (orBase (layer item)) Hl key) as (-> & -> & ->).
    subst f.
    destruct (Hdef (orBase (layer item))) as (E1 & E2 & E3).
    case_decide; subst; simpl; rewrite ?E1, ?E2, ?E3; tauto.
  - intros -> -> -> Hu. unfold addPatch.
    pose (f := (fun l => Layer.withPatches l
              (Js.assign (itemName item) (patch item)
                 (Layer.patches l)))).
    destruct (onLayer_effect (sa p) (orBase (layer item)) f Hu)
      as (sa' & Hrun & Hl).
    unfold f in Hrun. rewrite Hrun.
    eexists. split; [reflexivity |]. split; [reflexivity |].
    intros key. simpl.
    destruct (Hobs f sa' (orBase (layer item)) Hl key) as (-> & -> & ->).
    subst f.
    destruct (Hdef (orBase (layer item))) as (E1 & E2 & E3).
    case_decide; subst; simpl; rewrite ?E1, ?E2, ?E3; tauto.
  - now intros -> -> ->.
Qed.

(** What an assignment [o[key] = v] leaves in the table: the value under
    [key], unless [key] is ['__proto__'], and the other entries as they
    were. *)
Lemma assign_lookup {V : Type} (key : string) (v : V) (o : gmap string V)
  (fname : string) :
  Js.assign key v o !! fname
  = if decide (fname = key /\ key <> "__proto__") then Some v else o !! fname.
Proof.
  unfold Js.assign. destruct (String.eqb key "__proto__") eqn:E.
  - apply String.eqb_eq in E. case_decide as H; [| reflexivity].
    destruct H as [_ H]. contradiction.
  - apply String.eqb_neq in E. rewrite lookup_insert.
    case_decide as H1; case_decide as H2; try reflexivity; exfalso.
    + apply H2. split; [now symmetry | exact E].
    + apply H1. now destruct H2 as [-> _].
Qed.

(** A name that [getLayer] answers with an inherited method of
    [Object.prototype]: the update of that "layer" raises. *)
Lemma onLayer_raises (sa : t) (layer : string) (f : Layer.t -> Layer.t) :
  ~ usable sa layer -> onLayer sa layer f = None.
Proof.
  intros Hu. unfold onLayer, getLayer.
  destruct (layers sa !! layer) as [l|] eqn:E.
  - exfalso. apply Hu. left. rewrite E. eauto.
  - destruct (Js.inherited layer) eqn:Ei; [reflexivity |].
    exfalso. apply Hu. now right.
Qed.

(** C9, counterexample.  Three items whose first truthy field does not
    get them registered.  A JSON patch without [JSONPatchTarget]:
    [target.path] raises at line 162.  A resource for the layer
    [toString]: [getLayer] answers with the inherited method and
    [layer.resources[name] = obj] raises at line 154.  A resource called
    ['__proto__']: the assignment of line 154 sets the prototype of the
    table and adds no entry, so that the item is dropped without an
    error. *)
Lemma classify_not_registered_counterexample :
  classify (mkProcess 0 (new "solsa"))
    (mkItem Js.Undefined "p.yaml" None
       (Js.Arr [Js.Obj [("op", Js.Str "remove")]] []) None Js.Undefined)
  = None
  /\ classify (mkProcess 0 (new "solsa"))
       (mkItem (Js.Obj [("kind", Js.Str "Service")]) "svc.yaml"
          (Some "toString") Js.Undefined None Js.Undefined)
     = None
  /\ (exists p',
        classify (mkProcess 0 (new "solsa"))
          (mkItem (Js.Obj [("kind", Js.Str "Service")]) "__proto__" None
             Js.Undefined None Js.Undefined)
        = Some p'
        /\ errors p' = 0%nat
        /\ resourcesOf (sa p') "base" = ∅).
Proof.
  split; [reflexivity |]. split; [reflexivity |].
  eexists. split; [reflexivity |]. split; reflexivity.
Qed.

(** C9, as amended.  Classification looks at [obj], then [JSONPatch],
    then [patch], and acts on the first that is truthy, on that one
    only.  When the layer name of the item is one [getLayer] answers with
    a layer (and, for a JSON patch, the item has a [JSONPatchTarget]), the
    item is then found in that layer's table of resources, JSON patches
    or patches: under its name (for a JSON patch under the path of its
    target), unless that name is ['__proto__'], in which case the table
    stays as it is; every other entry of every table of every layer and
    the warning counter stay as they are.  When the layer name is not such
    a name, or the JSON patch has no target, the call raises.  An item
    with none of the three truthy leaves the process as it is: no entry,
    no error, the warning counter unchanged. *)
Theorem classify_first_truthy_field (p : Process) (item : Item) :
  (Js.truthy (obj item) = true ->
   (usable (sa p) (orBase (layer item)) ->
    exists p',
      classify p item = Some p'
      /\ errors p' = errors p
      /\ (forall key fname,
            resourcesOf (sa p') key !! fname
            = if decide (key = orBase (layer item)
                         /\ fname = itemName item
                         /\ itemName item <> "__proto__")
              then Some (obj item)
              else resourcesOf (sa p) key !! fname)
      /\ (forall key,
            patchesJSONOf (sa p') key = patchesJSONOf (sa p) key
            /\ patchesOf (sa p') key = patchesOf (sa p) key))
   /\ (~ usable (sa p) (orBase (layer item)) -> classify p item = None))
  /\ (Js.truthy (obj item) = false ->
      Js.truthy (JSONPatch item) = true ->
      (forall tg,
         JSONPatchTarget item = Some tg ->
         usable (sa p) (orBase (layer item)) ->
         exists p',
           classify p item = Some p'
           /\ errors p' = errors p
           /\ (forall key fname,
                 patchesJSONOf (sa p') key !! fname
                 = if decide (key = orBase (layer item)
                              /\ fname = path tg
                              /\ path tg <> "__proto__")
                   then Some (JSONPatch item, tg)
                   else patchesJSONOf (sa p) key !! fname)
           /\ (forall key,
                 resourcesOf (sa p') key = resourcesOf (sa p) key
                 /\ patchesOf (sa p') key = patchesOf (sa p) key))
      /\ (JSONPatchTarget item = None
          \/ ~ usable (sa p) (orBase (layer item)) ->
          classify p item = None))
  /\ (Js.truthy (obj item) = false ->
      Js.truthy (JSONPatch item) = false ->
      Js.truthy (patch item) = true ->
      (usable (sa p) (orBase (layer item)) ->
       exists p',
         classify p item = Some p'
         /\ errors p' = errors p
         /\ (forall key fname,
               patchesOf (sa p') key !! fname
               = if decide (key = orBase (layer item)
                            /\ fname = itemName item
                            /\ itemName item <> "__proto__")
                 then Some (patch item)
                 else patchesOf (sa p) key !! fname)
         /\ (forall key,
               resourcesOf (sa p') key = resourcesOf (sa p) key
               /\ patchesJSONOf (sa p') key = patchesJSONOf (sa p) key))
      /\ (~ usable (sa p) (orBase (layer item)) -> classify p item = None))
  /\ (Js.truthy (obj item) = false ->
      Js.truthy (JSONPatch item) = false ->
      Js.truthy (patch item) = false ->
      classify p item = Some p).
Proof.
  destruct (classify_tables p item) as (H1 & H2 & H3 & H4).
  split; [| split; [| split]].
  - intros Ht. split.
    + intros Hu. destruct (H1 Ht Hu) as (p' & Hrun & Herr & Htab).
      exists p'. split; [exact Hrun |]. split; [exact Herr |]. split.
      * intros key fname. rewrite (proj1 (Htab key)).
        case_decide as Hk.
        -- rewrite assign_lookup. subst key.
           repeat case_decide; try reflexivity; exfalso; intuition congruence.
        -- case_decide as Hd; [| reflexivity]. exfalso. intuition congruence.
      * intros key. exact (proj2 (Htab key)).
    + intros Hu. unfold classify, addResource. rewrite Ht.
      now rewrite onLayer_raises.
  - intros Ho Ht. split.
    + intros tg Htg Hu.
      destruct (H2 Ho Ht tg Htg Hu) as (p' & Hrun & Herr & Htab).
      exists p'. split; [exact Hrun |]. split; [exact Herr |]. split.
      * intros key fname. rewrite (proj1 (Htab key)).
        case_decide as Hk.
        -- rewrite assign_lookup. subst key.
           repeat case_decide; try reflexivity; exfalso; intuition congruence.
        -- case_decide as Hd; [| reflexivity]. exfalso. intuition congruence.
      * intros key. exact (proj2 (Htab key)).
    + intros Hbad. unfold classify, addJSONPatch. rewrite Ho, Ht.
      destruct (JSONPatchTarget item) as [tg|]; [| reflexivity].
      destruct Hbad as [Hbad | Hu]; [discriminate |].
      now rewrite onLayer_raises.
  - intros Ho Hj Ht. split.
    + intros Hu. destruct (H3 Ho Hj Ht Hu) as (p' & Hrun & Herr & Htab).
      exists p'. split; [exact Hrun |]. split; [exact Herr |]. split.
      * intros key fname. rewrite (proj1 (Htab key)).
        case_decide as Hk.
        -- rewrite assign_lookup. subst key.
           repeat case_decide; try reflexivity; exfalso; intuition congruence.
        -- case_decide as Hd; [| reflexivity]. exfalso. intuition congruence.
      * intros key. exact (proj2 (Htab key)).
    + intros Hu. unfold classify, addPatch. rewrite Ho, Hj, Ht.
      now rewrite onLayer_raises.
  - exact H4.
Qed.

Lemma classify_first_truthy_field_witness :
  (exists p',
      classify (mkProcess 3 (new "solsa"))
        (mkItem (Js.Obj [("kind", Js.Str "Service")]) "svc.yaml" None
           Js.Undefined None (Js.Str "spec: {}"))
      = Some p'
      /\ errors p' = 3%nat
      /\ (forall key fname,
            resourcesOf (sa p') key !! fname
            = if decide (key = "base" /\ fname = "svc.yaml"
                         /\ "svc.yaml" <> "__proto__")
              then Some (Js.Obj [("kind", Js.Str "Service")])
              else resourcesOf (new "solsa") key !! fname)
      /\ (forall key,
            patchesJSONOf (sa p') key = patchesJSONOf (new "solsa") key
            /\ patchesOf (sa p') key = patchesOf (new "solsa") key))
  /\ classify (mkProcess 3 (new "solsa"))
       (mkItem Js.Undefined "p.yaml" (Some "valueOf")
          (Js.Arr [Js.Obj [("op", Js.Str "remove")]] [])
          (Some (mkTarget "p.yaml" Js.Null)) Js.Undefined)
     = None
  /\ classify (mkProcess 3 (new "solsa")) emptyItem
     = Some (mkProcess 3 (new "solsa")).
Proof.
  split; [| split].
  - exact (proj1 (proj1 (classify_first_truthy_field
                           (mkProcess 3 (new "solsa"))
                           (mkItem (Js.Obj [("kind", Js.Str "Service")])
                              "svc.yaml" None Js.Undefined None
                              (Js.Str "spec: {}")))
                    eq_refl)
             (or_intror eq_refl)).
  - refine (proj2 (proj1 (proj2 (classify_first_truthy_field
                                   (mkProcess 3 (new "solsa"))
                                   (mkItem Js.Undefined "p.yaml"
                                      (Some "valueOf")
                                      (Js.Arr
                                         [Js.Obj [("op", Js.Str "remove")]]
                                         [])
                                      (Some (mkTarget "p.yaml" Js.Null))
                                      Js.Undefined)))
                     eq_refl eq_refl)
              (or_intror _)).
    intros [[l Hl] | Hi]; [discriminate Hl | discriminate Hi].
  - exact (proj2 (proj2 (proj2 (classify_first_truthy_field
                                  (mkProcess 3 (new "solsa")) emptyItem)))
             eq_refl eq_refl eq_refl).
Defined.

End ArchiverFacts.

(** ** Loading the configuration *)

Section InitFacts.

Variables (argvContext kubectl : option string) (errors0 : nat).

(** The counter once the current context is settled. *)
Local Abbreviation errors1 :=
  (snd (currentContext argvContext kubectl errors0)).

Lemma currentContext_counts : (errors0 <= errors1)%nat.
Proof.
  unfold currentContext.
  destruct (truthyOpt argvContext), kubectl; simpl; lia.
Qed.

(** A file that cannot be read or parsed: the initial configuration is
    returned and one warning is counted. *)
Lemma init_unreadable (file : LoadResult) :
  file = ReadError \/ file = ParseError ->
  init argvContext kubectl file errors0
  = (Js.Obj [("contexts", Js.Arr [] [])], (errors1 + 1)%nat)
  /\ contextsOf (fst (init argvContext kubectl file errors0)) = Some [].
Proof.
  unfold init.
  destruct (currentContext argvContext kubectl errors0) as [context e].
  intros [-> | ->]; simpl; split; reflexivity.
Qed.

(** A mapping without a list under [contexts]: it gets an empty one and
    one warning is counted. *)
Lemma init_mapping_without_contexts (fields : list (string * Js.value)) :
  (forall elems props,
      Js.lookupField "contexts" fields <> Some (Js.Arr elems props)) ->
  init argvContext kubectl (Document (Js.Obj fields)) errors0
  = (Js.Obj (Js.storeField "contexts" (Js.Arr [] []) fields),
     (errors1 + 1)%nat).
Proof.
  intros Hno. unfold init.
  destruct (currentContext argvContext kubectl errors0) as [context e].
  simpl. destruct (Js.lookupField "contexts" fields) as [[]|] eqn:E;
    simpl; try reflexivity.
  exfalso. eapply Hno. reflexivity.
Qed.

(** C8, at an empty configuration file, which loads as [undefined]: the
    warning is counted but what [init] returns is [undefined] itself, on
    which reading [contexts] raises; the same holds for a document that
    is [null], and a scalar document is returned without any [contexts]
    field. *)
Theorem init_empty_document :
  init argvContext kubectl (Document Js.Undefined) errors0
    = (Js.Undefined, (errors1 + 1)%nat)
  /\ Js.get Js.Undefined "contexts" = None
  /\ contextsOf (fst (init argvContext kubectl (Document Js.Undefined) errors0))
     = None
  /\ init argvContext kubectl (Document Js.Null) errors0
     = (Js.Null, (errors1 + 1)%nat)
  /\ (forall s,
        init argvContext kubectl (Document (Js.Str s)) errors0
        = (Js.Str s, (errors1 + 1)%nat)
        /\ contextsOf (Js.Str s) = None).
Proof.
  unfold init.
  destruct (currentContext argvContext kubectl errors0) as [context e].
  simpl. repeat split; reflexivity.
Qed.

End InitFacts.

Example init_missing_file :
  init None (Some "dev") ReadError 0
  = (Js.Obj [("contexts", Js.Arr [] [])], 1%nat).
Proof. reflexivity. Qed.

Example init_empty_file :
  init None (Some "dev") (Document Js.Undefined) 0 = (Js.Undefined, 1%nat).
Proof. reflexivity. Qed.

Example init_known_context :
  init (Some "dev") None
    (Document (Js.Obj [("contexts",
                        Js.Arr [Js.Obj [("name", Js.Str "dev")]] [])])) 0
  = (Js.Obj [("contexts", Js.Arr [Js.Obj [("name", Js.Str "dev")]] []);
             ("context", Js.Str "dev")], 0%nat).
Proof. reflexivity. Qed.

Example init_unknown_context :
  init (Some "qa") None
    (Document (Js.Obj [("contexts",
                        Js.Arr [Js.Obj [("name", Js.Str "dev")]] [])])) 0
  = (Js.Obj [("contexts", Js.Arr [Js.Obj [("name", Js.Str "dev")]] [])],
     1%nat).
Proof. reflexivity. Qed.

(** ** More on the split: joining the parts, splitting twice *)

(** Every reference is of one of three shapes, which fix its parts. *)
Lemma splitRef_shapes (name : string) :
  (exists a b t,
      name = (a +:+ String slash b) +:+ String colon t
      /\ includes a slash = false /\ includes b colon = false
      /\ repoPart name = a +:+ String slash b /\ tagPart name = Some t)
  \/ (exists b t,
         name = b +:+ String colon t
         /\ includes name slash = false /\ includes b colon = false
         /\ repoPart name = b /\ tagPart name = Some t)
  \/ (repoPart name = name /\ tagPart name = None /\ tagPos name = -1).
Proof.
  destruct (includes name slash) eqn:Hs.
  - destruct (includes_first _ _ Hs) as (a & rest & -> & Ha).
    destruct (includes rest colon) eqn:Hc.
    + destruct (includes_first _ _ Hc) as (b & t & -> & Hb).
      left. exists a, b, t. unfold repoPart, tagPart.
      rewrite tagPos_qualified_tag, Zofnat_neq_m1 by assumption.
      replace (a +:+ String slash (b +:+ String colon t))
        with ((a +:+ String slash b) +:+ String colon t)
        by (rewrite append_assoc; reflexivity).
      rewrite substring_prefix, substringFrom_suffix. tauto.
    + right. right. unfold repoPart, tagPart.
      rewrite tagPos_qualified_plain by assumption. tauto.
  - destruct (includes name colon) eqn:Hc.
    + destruct (includes_first _ _ Hc) as (b & t & -> & Hb).
      right. left. exists b, t. unfold repoPart, tagPart.
      rewrite tagPos_short_tag, Zofnat_neq_m1 by assumption.
      rewrite substring_prefix, substringFrom_suffix. tauto.
    + right. right. unfold repoPart, tagPart.
      rewrite tagPos_short_plain by assumption. tauto.
Qed.

Lemma repoPart_tagPart_join (name : string) :
  match tagPart name with
  | Some tag => repoPart name +:+ ":" +:+ tag = name
  | None => repoPart name = name
  end.
Proof.
  destruct (splitRef_shapes name)
    as [(a & b & t & E & _ & _ & -> & ->)
       | [(b & t & E & _ & _ & -> & ->) | (-> & -> & _)]];
    [symmetry; exact E | symmetry; exact E | reflexivity].
Qed.

(** X1.  The two parts of a split give the reference back: joined by a
    colon when there is a tag, the repository part alone when there is
    none. *)
Theorem splitRef_join (name : string) :
  match snd (splitRef name) with
  | Some tag => fst (splitRef name) +:+ ":" +:+ tag = name
  | None => fst (splitRef name) = name
  end.
Proof. exact (repoPart_tagPart_join name). Qed.

(** X2.  The repository part has no tag of its own: split again it is
    returned whole. *)
Theorem repoPart_has_no_tag (name : string) :
  splitRef (repoPart name) = (repoPart name, None).
Proof.
  assert (Hfix : forall s, tagPos s = -1 -> splitRef s = (s, None)).
  { intros s H. unfold splitRef, repoPart, tagPart. now rewrite H. }
  destruct (splitRef_shapes name)
    as [(a & b & t & _ & Ha & Hb & -> & _)
       | [(b & t & E & Hs & Hb & -> & _) | (-> & _ & H)]].
  - apply Hfix. now apply tagPos_qualified_plain.
  - apply Hfix. apply tagPos_short_plain; [| exact Hb].
    rewrite E, includes_append in Hs. apply orb_false_iff in Hs. tauto.
  - now apply Hfix.
Qed.

(** ** Sets of names *)

Lemma fold_setAdd_elem (names set : list string) (n : string) :
  n ∈ fold_left setAdd names set <-> n ∈ set \/ n ∈ names.
Proof.
  revert set; induction names as [|m names IH]; intros set; simpl.
  - split; [now left | intros [H | H]; [exact H | inversion H]].
  - rewrite IH. unfold setAdd. destruct (decide (m ∈ set)) as [Hm | Hm].
    + split; [intros [H | H]; [now left | right; now right] |].
      intros [H | [-> | H]%elem_of_cons]; [now left | now left | now right].
    + rewrite elem_of_app, list_elem_of_singleton, elem_of_cons. tauto.
Qed.


Lemma setOf_elem (names : list string) (n : string) :
  n ∈ setOf names <-> n ∈ names.
Proof.
  unfold setOf. rewrite fold_setAdd_elem. split; [| now right].
  intros [H | H]; [inversion H | exact H].
Qed.


(** ** The order of the derived rules *)

Section DerivedOrder.

Variable context : Context.t.

(** The derived list for the references [acc], taken in their order:
    the tagged ones reversed, then the untagged ones. *)
Let shape (acc : list string) : list ImageRule.t :=
  reverse (derivedRule context <$> filter (fun n => carriesTag n = true) acc)
  ++ (derivedRule context <$> filter (fun n => carriesTag n = false) acc).

Lemma names_of_derived (l : list string) :
  ImageRule.name <$> (derivedRule context <$> l) = l.
Proof.
  induction l as [|n l IH]; [reflexivity |].
  rewrite !fmap_cons, IH, derivedRule_name. reflexivity.
Qed.

Lemma shape_names (acc : list string) (n : string) :
  n ∈ (ImageRule.name <$> shape acc) <-> n ∈ acc.
Proof.
  unfold shape.
  rewrite fmap_app, fmap_reverse, !names_of_derived, elem_of_app,
    elem_of_reverse, !list_elem_of_filter.
  destruct (carriesTag n); split; intros H; try tauto;
    destruct H as [[H _] | [H _]]; congruence.
Qed.

Lemma renameStep_shape (acc : list string) (n : string) :
  renameStep context (shape acc) n
  = shape (if alreadyKustomized context n then acc else setAdd acc n).
Proof.
  destruct (renameStep_cases context (shape acc) n)
    as [[E [H | H]] | (Hk & Hnew & [[Hc E] | [Hc E]])]; rewrite E.
  - now rewrite H.
  - apply (proj1 (shape_names acc n)) in H. unfold setAdd.
    destruct (alreadyKustomized context n); [reflexivity |].
    destruct (decide (n ∈ acc)); [reflexivity | contradiction].
  - rewrite Hk. rewrite (shape_names acc n) in Hnew. unfold setAdd.
    destruct (decide (n ∈ acc)); [contradiction |].
    unfold shape. rewrite !filter_app.
    rewrite (filter_cons_True _ n []) by exact Hc.
    rewrite (filter_cons_False _ n []) by congruence.
    rewrite !filter_nil, app_nil_r, fmap_app, reverse_app. reflexivity.
  - rewrite Hk. rewrite (shape_names acc n) in Hnew. unfold setAdd.
    destruct (decide (n ∈ acc)); [contradiction |].
    unfold shape. rewrite !filter_app.
    rewrite (filter_cons_False _ n []) by congruence.
    rewrite (filter_cons_True _ n []) by exact Hc.
    rewrite !filter_nil, app_nil_r, fmap_app, app_assoc. reflexivity.
Qed.

Lemma fold_renameStep_closed_form (l acc : list string) :
  fold_left (renameStep context) l (shape acc)
  = shape (fold_left setAdd
             (filter (fun n => alreadyKustomized context n = false) l) acc).
Proof.
  revert acc; induction l as [|n l IH]; intros acc; [reflexivity |].
  simpl fold_left. rewrite renameStep_shape, IH.
  destruct (alreadyKustomized context n) eqn:Hk.
  - rewrite filter_cons_False by congruence. reflexivity.
  - rewrite filter_cons_True by exact Hk. reflexivity.
Qed.

End DerivedOrder.

(** X3.  The derived rules in closed form: one rule for each declared
    reference that has no override, repetitions counted once; the rules of
    the tagged references come first, last declared first, then those of
    the untagged references in the order of declaration. *)
Theorem derivedImages_closed_form
  (context : Context.t) (appImages : list string) :
  derivedImages context appImages
  = reverse (derivedRule context
               <$> filter (fun n => carriesTag n = true)
                     (accepted context appImages))
    ++ (derivedRule context
          <$> filter (fun n => carriesTag n = false)
                (accepted context appImages)).
Proof.
  exact (fold_renameStep_closed_form context appImages []).
Qed.

(** ** [rename]: the name an image is pushed under *)

Lemma find_not_found {A : Type} (p : A -> bool) (l : list A) :
  found (List.find p l) = false -> List.find p l = None.
Proof. destruct (List.find p l); [discriminate | reflexivity]. Qed.

Lemma find_explicit_none (context : Context.t) (name : string) :
  alreadyKustomized context name = false ->
  List.find
    (fun image =>
       String.eqb (ImageRule.name image) name
       || String.eqb (ImageRule.name image) (repoPart name))
    (explicitImages context) = None.
Proof.
  unfold alreadyKustomized, explicitImages.
  destruct (Context.images context) as [rules|]; [| reflexivity].
  apply find_not_found.
Qed.

(** For a reference without an override, [rename] and the rule that
    [finalizeImageRenames] derives for it say the same. *)
Lemma rename_derived (context : Context.t) (name : string) :
  alreadyKustomized context name = false ->
  rename name context = applyRule (derivedRule context name) name.
Proof.
  intros Hk. unfold rename. rewrite (find_explicit_none context name Hk).
  unfold derivedRule, candidate, applyImageTag, applyRule, orElse, withTag,
    truthyOpt.
  destruct (tagPart name) as [[|x t]|];
    destruct (Context.registry context) as [[|y r]|];
    destruct (Context.imageTag context) as [[|z i]|];
    destruct (includes name slash); reflexivity.
Qed.

(** X4.  Under a context without registry, default tag and explicit rules
    [rename] gives the reference back, except that a reference ending in
    its tag colon loses that colon. *)
Theorem rename_bare (c name : string) :
  (tagPart name <> Some "" -> rename name (bare c) = name)
  /\ (tagPart name = Some "" ->
      rename name (bare c) = repoPart name
      /\ name = repoPart name +:+ ":").
Proof.
  pose proof (repoPart_tagPart_join name) as Hjoin.
  unfold rename, bare, orElse, withTag, truthyOpt. simpl.
  destruct (tagPart name) as [[|x t]|]; simpl; split;
    try congruence; try (intros _; exact Hjoin).
  intros _. split; [reflexivity | now symmetry].
Qed.

Lemma rename_bare_witness :
  rename "reg:5000/app:v1" (bare "dev") = "reg:5000/app:v1"
  /\ rename "app:" (bare "dev") = repoPart "app:"
  /\ "app:" = repoPart "app:" +:+ ":".
Proof.
  split.
  - refine (proj1 (rename_bare "dev" "reg:5000/app:v1") _). discriminate.
  - exact (proj2 (rename_bare "dev" "app:") eq_refl).
Defined.

(** X5.  The name [rename] gives a declared image is the one some rule of
    the overlay's list rewrites it to: the rule is in the list
    [finalizeImageRenames] returns for the same context, it is a rule for
    the reference or for its repository part, and applying it gives the
    result of [rename]. *)
Theorem rename_follows_overlay
  (context : Context.t) (appImages : list string) (name : string) :
  name ∈ appImages ->
  exists k,
    k ∈ finalizeImageRenames context appImages
    /\ (ImageRule.name k = name \/ ImageRule.name k = repoPart name)
    /\ rename name context = applyRule k name.
Proof.
  intros Hin. destruct (alreadyKustomized context name) eqn:Hk.
  - unfold rename.
    destruct (List.find _ (explicitImages context)) as [image|] eqn:Hf.
    + apply find_some in Hf as [Himage Hp].
      exists image. split; [| split; [| reflexivity]].
      * unfold finalizeImageRenames. apply elem_of_app. left.
        now apply list_elem_of_In.
      * apply orb_true_iff in Hp as [Hp | Hp]; apply String.eqb_eq in Hp;
          tauto.
    + apply alreadyKustomized_true in Hk as (image & Himage & Hn).
      apply list_elem_of_In in Himage.
      apply (find_none _ _ Hf) in Himage.
      apply orb_false_iff in Himage as [H1 H2].
      apply String.eqb_neq in H1, H2. tauto.
  - destruct (derivedImages_complete context appImages name Hin Hk)
      as (k & Hkin & E).
    destruct (derivedImages_elem context appImages k Hkin) as (tag & Hd & _).
    exists k. split; [| split; [now left |]].
    + unfold finalizeImageRenames. apply elem_of_app. now right.
    + rewrite Hd, E. now apply rename_derived.
Qed.

Lemma rename_follows_overlay_witness :
  exists k,
    k ∈ finalizeImageRenames dev ["ns/tool:1"; "myservice"]
    /\ (ImageRule.name k = "myservice"
        \/ ImageRule.name k = repoPart "myservice")
    /\ rename "myservice" dev = applyRule k "myservice".
Proof.
  refine (rename_follows_overlay dev ["ns/tool:1"; "myservice"] "myservice" _).
  right. left.
Defined.

(** ** [pushCommand] *)

Lemma setOf_nil (names : list string) : setOf names = [] <-> names = [].
Proof.
  split; [| now intros ->].
  intros E. destruct names as [|n names]; [reflexivity |].
  assert (H : n ∈ setOf (n :: names)) by (apply setOf_elem; left).
  rewrite E in H. inversion H.
Qed.



(** X6.  With the current context set to a name that none of the
    contexts of the configuration has, [pushCommand] raises as soon as
    there is an image to push: [rename] reads the rules of a context that
    [find] did not find, before any image is tagged.  With no image to
    push it returns without a warning and without a command. *)
Theorem pushCommand_unlisted_context
  (config : Config.t) (images : list Build.t) (errors : nat)
  (current : string) :
  Config.context config = Some current ->
  truthy current = true ->
  (forall c, c ∈ Config.contexts config -> Context.name c <> current) ->
  pushCommand config images errors
  = match images with
    | [] => Some (errors, [])
    | _ :: _ => None
    end.
Proof.
  intros Hc Ht Hno. unfold pushCommand. rewrite Hc, Ht.
  destruct (List.find _ (Config.contexts config)) as [context|] eqn:Hf.
  - exfalso. apply find_some in Hf as [Hin Hp]. apply String.eqb_eq in Hp.
    apply list_elem_of_In in Hin. now apply Hno in Hin.
  - destruct (setOf (Build.name <$> images)) as [|n names] eqn:Hs.
    + apply (proj1 (setOf_nil _)) in Hs. apply fmap_nil_inv in Hs.
      now subst images.
    + destruct images as [|image rest]; [discriminate Hs | reflexivity].
Qed.

Lemma pushCommand_unlisted_context_witness :
  pushCommand (Config.mk [dev; prod] (Some "qa")) [Build.mk "app" "." None] 3
  = None.
Proof.
  refine (pushCommand_unlisted_context (Config.mk [dev; prod] (Some "qa"))
            [Build.mk "app" "." None] 3 "qa" eq_refl eq_refl _).
  intros c H. apply elem_of_cons in H as [-> | H]; [discriminate |].
  apply list_elem_of_singleton in H. subst c. discriminate.
Defined.



Example push_dev :
  pushCommand (Config.mk [prod; dev] (Some "dev"))
    [Build.mk "app" "." None; Build.mk "app" "x" None] 0
  = Some (0%nat,
          [DockerTag "app" "reg.example.com/app";
           DockerPush "reg.example.com/app"]).
Proof. reflexivity. Qed.

(** ** [buildCommand] *)

Section BuildFacts.

Variable existsSync : list Action -> string -> string -> bool.
Variable images : list Build.t.




End BuildFacts.


Example build_twice_declared :
  buildCommand (fun _ dir file => negb (String.eqb dir "gone"))
    [Build.mk "app" "a" None; Build.mk "old" "gone" None;
     Build.mk "app" "b" (Some "main.js")] 0
  = Some (1%nat, [Rsync "a"; DockerBuild "a" "." "app"]).
Proof. reflexivity. Qed.

(** ** The layer registry as a whole *)

Module RegistryFacts.
Import SolsaArchiver.

#[local] Set Warnings "-clear-no-such-hyp".

(** What a successful classification of one item does to the registry. *)
Lemma classify_layers (p p' : Process) (item : Item) :
  classify p item = Some p' ->
  errors p' = errors p
  /\ outputRoot (sa p') = outputRoot (sa p)
  /\ ((registers item = false /\ layers (sa p') = layers (sa p))
      \/ (registers item = true
          /\ exists f,
              updateOf item = Some f
              /\ layers (sa p')
                 = <[layerOf item := f (layerAt (sa p) (layerOf item))]>
                     (layers (sa p)))).
Proof.
  unfold classify, registers, updateOf, layerOf, layerAt,
    addResource, addJSONPatch, addPatch.
  destruct (Js.truthy (obj item)).
  { destruct (onLayer _ _ _) as [sa'|] eqn:E; [| discriminate].
    intros [= <-]. apply ArchiverFacts.onLayer_inv in E. subst sa'. simpl.
    split; [reflexivity |]. split; [reflexivity |]. right.
    split; [reflexivity |]. eexists. split; reflexivity. }
  destruct (Js.truthy (JSONPatch item)).
  { destruct (JSONPatchTarget item) as [tg|]; [| discriminate].
    destruct (onLayer _ _ _) as [sa'|] eqn:E; [| discriminate].
    intros [= <-]. apply ArchiverFacts.onLayer_inv in E. subst sa'. simpl.
    split; [reflexivity |]. split; [reflexivity |]. right.
    split; [reflexivity |]. eexists. split; reflexivity. }
  destruct (Js.truthy (patch item)).
  { destruct (onLayer _ _ _) as [sa'|] eqn:E; [| discriminate].
    intros [= <-]. apply ArchiverFacts.onLayer_inv in E. subst sa'. simpl.
    split; [reflexivity |]. split; [reflexivity |]. right.
    split; [reflexivity |]. eexists. split; reflexivity. }
  intros [= <-]. split; [reflexivity |]. split; [reflexivity |]. now left.
Qed.

(** An update asked for by an item touches one kind of entry and nothing
    else of the layer. *)
Lemma updateOf_keeps (item : Item) (f : Layer.t -> Layer.t) (l : Layer.t) :
  updateOf item = Some f ->
  Layer.name (f l) = Layer.name l
  /\ Layer.bases (f l) = Layer.bases l
  /\ Layer.images (f l) = Layer.images l
  /\ dom (Layer.resources l) ⊆ dom (Layer.resources (f l))
  /\ dom (Layer.patches l) ⊆ dom (Layer.patches (f l))
  /\ dom (Layer.patchesJSON l) ⊆ dom (Layer.patchesJSON (f l)).
Proof.
  assert (Hdom : forall (V : Type) k (v : V) (m : gmap string V),
             dom m ⊆ dom (Js.assign k v m)).
  { intros V k v m. unfold Js.assign.
    destruct (String.eqb k "__proto__"); [reflexivity |].
    rewrite dom_insert_L. set_solver. }
  unfold updateOf.
  destruct (Js.truthy (obj item)).
  { intros [= <-]. simpl. repeat split; try reflexivity. apply Hdom. }
  destruct (Js.truthy (JSONPatch item)).
  { destruct (JSONPatchTarget item) as [tg|]; [| discriminate].
    intros [= <-]. simpl. repeat split; try reflexivity. apply Hdom. }
  destruct (Js.truthy (patch item)); [| discriminate].
  intros [= <-]. simpl. repeat split; try reflexivity. apply Hdom.
Qed.

Lemma finalizeContext_layers (app : App) (sa sa' : t) (context : Context.t) :
  finalizeContext app sa context = Some sa' ->
  outputRoot sa' = outputRoot sa
  /\ layers sa'
     = <[Context.name context :=
           Layer.withImages
             (Layer.withBases (layerAt sa (Context.name context))
                (Layer.bases (layerAt sa (Context.name context))
                   ++ ["./../base"]))
             (finalizeImageRenames context (getImages app))]> (layers sa).
Proof.
  unfold finalizeContext. intros H. apply ArchiverFacts.onLayer_inv in H.
  subst sa'. split; reflexivity.
Qed.

(** *** The layers that exist *)

Lemma classifyAll_dom (items : list Item) (p p' : Process) :
  classifyAll p items = Some p' ->
  dom (layers (sa p'))
  = list_to_set (layerOf <$> filter (fun i => registers i = true) items)
    ∪ dom (layers (sa p)).
Proof.
  revert p; induction items as [|item rest IH]; intros p; simpl.
  - intros [= <-]. set_solver.
  - destruct (classify p item) as [p1|] eqn:E; [| discriminate].
    intros Hrest. rewrite (IH p1 Hrest).
    destruct (classify_layers p p1 item E)
      as (_ & _ & [[Hr ->] | (Hr & f & _ & ->)]).
    + rewrite filter_cons_False by congruence. reflexivity.
    + rewrite filter_cons_True by exact Hr.
      rewrite fmap_cons, list_to_set_cons, dom_insert_L. set_solver.
Qed.

Lemma each_finalizeContext_dom (app : App) (contexts : list Context.t)
  (sa sa' : t) :
  each (finalizeContext app) sa contexts = Some sa' ->
  dom (layers sa')
  = list_to_set (Context.name <$> contexts) ∪ dom (layers sa).
Proof.
  revert sa; induction contexts as [|c rest IH]; intros sa; simpl.
  - intros [= <-]. set_solver.
  - destruct (finalizeContext app sa c) as [sa1|] eqn:E; [| discriminate].
    intros Hrest. rewrite (IH sa1 Hrest).
    destruct (finalizeContext_layers app sa sa1 c E) as [_ ->].
    rewrite dom_insert_L. set_solver.
Qed.

Lemma synthesize_dom
  (outputRoot : string) (contexts : list Context.t) (app : App)
  (errors0 : nat) (p : Process) (manifests : gmap string Kustomization) :
  synthesize outputRoot contexts app errors0 = Some (p, manifests) ->
  dom manifests
  = {["base"]}
    ∪ list_to_set (Context.name <$> contexts)
    ∪ list_to_set
        (layerOf <$> filter (fun i => registers i = true) (getResources app)).
Proof.
  unfold synthesize, finalize.
  destruct (classifyAll _ (getResources app)) as [p1|] eqn:Hloop;
    [| discriminate].
  destruct (each _ (sa p1) contexts) as [sa'|] eqn:Hfin; [| discriminate].
  intros [= <- <-]. rewrite dom_fmap_L.
  rewrite (each_finalizeContext_dom app contexts (sa p1) sa' Hfin).
  rewrite (classifyAll_dom (getResources app) _ p1 Hloop).
  unfold new. simpl. rewrite dom_singleton_L. set_solver.
Qed.

(** X9.  The layer directories [yamlCommand] writes a manifest to are
    [base], one for each context of the configuration, and one for each
    layer named by an item that is registered; no others. *)
Theorem synthesize_layer_directories
  (outputRoot : string) (contexts : list Context.t) (app : App)
  (errors0 : nat) (p : Process) (manifests : gmap string Kustomization) :
  synthesize outputRoot contexts app errors0 = Some (p, manifests) ->
  dom manifests
  = {["base"]}
    ∪ list_to_set (Context.name <$> contexts)
    ∪ list_to_set
        (layerOf <$> filter (fun i => registers i = true) (getResources app)).
Proof. apply synthesize_dom. Qed.

Lemma synthesize_layer_directories_witness :
  exists p manifests,
    synthesize "solsa" [dev] sampleApp 0 = Some (p, manifests)
    /\ dom manifests
       = {["base"]}
         ∪ list_to_set (Context.name <$> [dev])
         ∪ list_to_set
             (layerOf <$> filter (fun i => registers i = true)
                            (getResources sampleApp)).
Proof.
  do 2 eexists. split; [reflexivity |].
  exact (synthesize_layer_directories "solsa" [dev] sampleApp 0 _ _ eq_refl).
Defined.

(** *** What the layers hold *)

Lemma observed_at (sa : t) (key : string) :
  resourcesOf sa key = Layer.resources (layerAt sa key)
  /\ patchesOf sa key = Layer.patches (layerAt sa key)
  /\ patchesJSONOf sa key = Layer.patchesJSON (layerAt sa key).
Proof.
  unfold resourcesOf, patchesOf, patchesJSONOf, layerAt.
  destruct (layers sa !! key); simpl; tauto.
Qed.

(** A property of layers that new layers have and that the updates of
    items and of [finalize] keep holds of every layer in the end. *)
Lemma synthesize_invariant (P : string -> Layer.t -> Prop)
  (outputRoot : string) (contexts : list Context.t) (app : App)
  (errors0 : nat) (p : Process) (manifests : gmap string Kustomization) :
  (forall key, P key (Layer.new key)) ->
  (forall item f key l,
      item ∈ getResources app -> updateOf item = Some f ->
      P key l -> P key (f l)) ->
  (forall c key l,
      c ∈ contexts -> P key l ->
      P key (Layer.withImages
               (Layer.withBases l (Layer.bases l ++ ["./../base"]))
               (finalizeImageRenames c (getImages app)))) ->
  synthesize outputRoot contexts app errors0 = Some (p, manifests) ->
  manifests = kustom app <$> layers (sa p)
  /\ forall key l, layers (sa p) !! key = Some l -> P key l.
Proof.
  intros Hnew Hitem Hctx. unfold synthesize, finalize.
  destruct (classifyAll _ (getResources app)) as [p1|] eqn:Hloop;
    [| discriminate].
  destruct (each _ (sa p1) contexts) as [sa'|] eqn:Hfin; [| discriminate].
  intros [= <- <-]. split; [reflexivity |]. simpl.
  assert (Hat : forall (s : t) key,
             (forall k l, layers s !! k = Some l -> P k l) ->
             P key (layerAt s key)).
  { intros s key Hs. unfold layerAt.
    destruct (layers s !! key) as [l|] eqn:E; simpl; [eauto | apply Hnew]. }
  assert (H1 : forall k l, layers (sa p1) !! k = Some l -> P k l).
  { revert Hloop Hitem.
    generalize (getResources app) as items.
    assert (H0 : forall k l,
               layers (sa (mkProcess errors0 (new outputRoot))) !! k = Some l ->
               P k l).
    { intros k l. unfold new. simpl.
      intros [<- <-]%lookup_singleton_Some. apply Hnew. }
    revert H0. generalize (mkProcess errors0 (new outputRoot)) as q.
    intros q H0 items. revert q H0.
    induction items as [|item rest IH]; intros q H0; simpl.
    - now intros [= <-].
    - destruct (classify q item) as [q1|] eqn:E; [| discriminate].
      intros Hrest Hit. apply (IH q1); [| exact Hrest |].
      + destruct (classify_layers q q1 item E)
          as (_ & _ & [[_ ->] | (_ & f & Hf & ->)]); [exact H0 |].
        intros k l. rewrite lookup_insert. case_decide as Hk.
        * subst k. intros [= <-]. eapply Hit; [left | exact Hf |].
          now apply Hat.
        * apply H0.
      + intros i f key l Hi. apply Hit. now right. }
  clear Hloop. revert Hfin H1 Hctx. generalize (sa p1) as s.
  induction contexts as [|c rest IH]; intros s; simpl.
  - now intros [= <-].
  - destruct (finalizeContext app s c) as [s1|] eqn:E; [| discriminate].
    intros Hrest Hs Hc. apply (IH s1); [exact Hrest | |].
    + destruct (finalizeContext_layers app s s1 c E) as [_ ->].
      intros k l. rewrite lookup_insert. case_decide as Hk.
      * subst k. intros [= <-]. apply Hc; [left |]. now apply Hat.
      * apply Hs.
    + intros c' key l Hc'. apply Hc. now right.
Qed.

(** X10.  Every layer is registered under its own name, so that the
    manifest of a layer is the one written to the directory of its name and
    no two layers share a directory. *)
Theorem synthesize_layers_named
  (outputRoot : string) (contexts : list Context.t) (app : App)
  (errors0 : nat) (p : Process) (manifests : gmap string Kustomization) :
  synthesize outputRoot contexts app errors0 = Some (p, manifests) ->
  forall key l,
    layers (sa p) !! key = Some l ->
    Layer.name l = key /\ manifests !! key = Some (kustom app l).
Proof.
  intros Hrun.
  destruct (synthesize_invariant (fun key l => Layer.name l = key)
              outputRoot contexts app errors0 p manifests) as [-> Hn];
    [reflexivity | | | exact Hrun |].
  - intros item f key l _ Hf <-. apply (updateOf_keeps item f l Hf).
  - intros c key l _ H. exact H.
  - intros key l Hl. split; [now apply Hn |].
    now rewrite lookup_fmap, Hl.
Qed.

Lemma synthesize_layers_named_witness :
  exists p manifests,
    synthesize "solsa" [dev] sampleApp 0 = Some (p, manifests)
    /\ forall key l,
        layers (sa p) !! key = Some l ->
        Layer.name l = key /\ manifests !! key = Some (kustom sampleApp l).
Proof.
  do 2 eexists. split; [reflexivity |].
  exact (synthesize_layers_named "solsa" [dev] sampleApp 0 _ _ eq_refl).
Defined.

Lemma layerAt_insert (s s' : t) (K : string) (x : Layer.t) (key : string) :
  layers s' = <[K := x]> (layers s) ->
  layerAt s' key = if decide (key = K) then x else layerAt s key.
Proof.
  intros E. unfold layerAt. rewrite E, lookup_insert.
  repeat case_decide; simpl; congruence.
Qed.

Lemma assign_dom {V : Type} (k : string) (v : V) (m : gmap string V) :
  k <> "__proto__" -> k ∈ dom (Js.assign k v m).
Proof.
  intros Hk. unfold Js.assign.
  destruct (String.eqb k "__proto__") eqn:E;
    [apply String.eqb_eq in E; contradiction |].
  rewrite dom_insert_L. set_solver.
Qed.

Lemma assign_proto {V : Type} (k : string) (v : V) (m : gmap string V) :
  Js.assign k v m !! "__proto__" = m !! "__proto__".
Proof.
  unfold Js.assign. destruct (String.eqb k "__proto__") eqn:E;
    [reflexivity |].
  apply String.eqb_neq in E. now rewrite lookup_insert_ne.
Qed.

(** Classification only ever adds entry names. *)
Lemma classify_keys_mono (q q' : Process) (item : Item) (key : string) :
  classify q item = Some q' ->
  dom (resourcesOf (sa q) key) ⊆ dom (resourcesOf (sa q') key)
  /\ dom (patchesOf (sa q) key) ⊆ dom (patchesOf (sa q') key)
  /\ dom (patchesJSONOf (sa q) key) ⊆ dom (patchesJSONOf (sa q') key).
Proof.
  intros E.
  destruct (classify_layers q q' item E)
    as (_ & _ & [[_ Hl] | (_ & f & Hf & Hl)]).
  - unfold resourcesOf, patchesOf, patchesJSONOf. rewrite Hl.
    split; [| split]; reflexivity.
  - destruct (observed_at (sa q) key) as (-> & -> & ->).
    destruct (observed_at (sa q') key) as (-> & -> & ->).
    rewrite (layerAt_insert (sa q) (sa q') _ _ key Hl).
    case_decide as Hk; [| split; [| split]; reflexivity]. subst key.
    destruct (updateOf_keeps item f (layerAt (sa q) (layerOf item)) Hf)
      as (_ & _ & _ & H1 & H2 & H3).
    tauto.
Qed.

(** The entry an item is registered as, right after its classification. *)
Lemma classify_registers_entry (q q' : Process) (item : Item) :
  classify q item = Some q' ->
  (Js.truthy (obj item) = true -> itemName item <> "__proto__" ->
   itemName item ∈ dom (resourcesOf (sa q') (layerOf item)))
  /\ (Js.truthy (obj item) = false -> Js.truthy (JSONPatch item) = true ->
      forall tg, JSONPatchTarget item = Some tg -> path tg <> "__proto__" ->
                 path tg ∈ dom (patchesJSONOf (sa q') (layerOf item)))
  /\ (Js.truthy (obj item) = false -> Js.truthy (JSONPatch item) = false ->
      Js.truthy (patch item) = true -> itemName item <> "__proto__" ->
      itemName item ∈ dom (patchesOf (sa q') (layerOf item))).
Proof.
  intros E.
  destruct (observed_at (sa q') (layerOf item)) as (-> & -> & ->).
  destruct (classify_layers q q' item E)
    as (_ & _ & [[Hr _] | (_ & f & Hf & Hl)]).
  - unfold registers in Hr. apply orb_false_iff in Hr as [Hr H3].
    apply orb_false_iff in Hr as [H1 H2].
    split; [| split]; intros; congruence.
  - rewrite (layerAt_insert (sa q) (sa q') _ _ (layerOf item) Hl).
    rewrite decide_True by reflexivity.
    unfold updateOf in Hf. split; [| split].
    + intros H1 Hn. rewrite H1 in Hf. injection Hf as <-. simpl.
      now apply assign_dom.
    + intros H1 H2 tg Htg Hn. rewrite H1, H2, Htg in Hf.
      injection Hf as <-. simpl. now apply assign_dom.
    + intros H1 H2 H3 Hn. rewrite H1, H2, H3 in Hf.
      injection Hf as <-. simpl. now apply assign_dom.
Qed.

Lemma classifyAll_keys_mono (items : list Item) (q q' : Process)
  (key : string) :
  classifyAll q items = Some q' ->
  dom (resourcesOf (sa q) key) ⊆ dom (resourcesOf (sa q') key)
  /\ dom (patchesOf (sa q) key) ⊆ dom (patchesOf (sa q') key)
  /\ dom (patchesJSONOf (sa q) key) ⊆ dom (patchesJSONOf (sa q') key).
Proof.
  revert q; induction items as [|item rest IH]; intros q; simpl.
  - now intros [= <-].
  - destruct (classify q item) as [q1|] eqn:E; [| discriminate].
    intros Hrest.
    destruct (classify_keys_mono q q1 item key E) as (H1 & H2 & H3).
    destruct (IH q1 Hrest) as (H1' & H2' & H3').
    split; [| split]; etrans; eassumption.
Qed.

Lemma each_finalizeContext_keeps (app : App) (contexts : list Context.t)
  (s s' : t) (key : string) :
  each (finalizeContext app) s contexts = Some s' ->
  resourcesOf s' key = resourcesOf s key
  /\ patchesOf s' key = patchesOf s key
  /\ patchesJSONOf s' key = patchesJSONOf s key.
Proof.
  revert s; induction contexts as [|c rest IH]; intros s; simpl.
  - now intros [= <-].
  - destruct (finalizeContext app s c) as [s1|] eqn:E; [| discriminate].
    intros Hrest. destruct (IH s1 Hrest) as (-> & -> & ->).
    destruct (finalizeContext_layers app s s1 c E) as [_ Hl].
    destruct (observed_at s key) as (-> & -> & ->).
    destruct (observed_at s1 key) as (-> & -> & ->).
    rewrite (layerAt_insert s s1 _ _ key Hl).
    case_decide as Hk; [subst key |]; tauto.
Qed.

(** After the loop every item is among the entries of its layer. *)
Lemma classifyAll_registers (items : list Item) (q q' : Process)
  (item : Item) :
  classifyAll q items = Some q' -> item ∈ items ->
  (Js.truthy (obj item) = true -> itemName item <> "__proto__" ->
   itemName item ∈ dom (resourcesOf (sa q') (layerOf item)))
  /\ (Js.truthy (obj item) = false -> Js.truthy (JSONPatch item) = true ->
      forall tg, JSONPatchTarget item = Some tg -> path tg <> "__proto__" ->
                 path tg ∈ dom (patchesJSONOf (sa q') (layerOf item)))
  /\ (Js.truthy (obj item) = false -> Js.truthy (JSONPatch item) = false ->
      Js.truthy (patch item) = true -> itemName item <> "__proto__" ->
      itemName item ∈ dom (patchesOf (sa q') (layerOf item))).
Proof.
  revert q; induction items as [|i rest IH]; intros q Hrun Hin;
    [inversion Hin |].
  simpl in Hrun. destruct (classify q i) as [q1|] eqn:E; [| discriminate].
  apply elem_of_cons in Hin as [-> | Hin]; [| now apply (IH q1)].
  destruct (classify_registers_entry q q1 i E) as (H1 & H2 & H3).
  destruct (classifyAll_keys_mono rest q1 q' (layerOf i) Hrun)
    as (M1 & M2 & M3).
  split; [| split]; intros.
  - apply M1. auto.
  - apply M3. eauto.
  - apply M2. auto.
Qed.

(** X11.  Every item that is registered is listed in the manifest of its
    layer: a resource among [resources], a JSON patch (by the path of its
    target) among [patchesJson6902], a patch among [patches]; the one
    exception is the name ['__proto__'], which no object holds as a
    property. *)
Theorem synthesize_lists_every_item
  (outputRoot : string) (contexts : list Context.t) (app : App)
  (errors0 : nat) (p : Process) (manifests : gmap string Kustomization)
  (item : Item) :
  synthesize outputRoot contexts app errors0 = Some (p, manifests) ->
  item ∈ getResources app ->
  (Js.truthy (obj item) = true -> itemName item <> "__proto__" ->
   exists k, manifests !! layerOf item = Some k
             /\ itemName item ∈ kResources k)
  /\ (Js.truthy (obj item) = false -> Js.truthy (JSONPatch item) = true ->
      forall tg, JSONPatchTarget item = Some tg -> path tg <> "__proto__" ->
                 exists k, manifests !! layerOf item = Some k
                           /\ path tg ∈ dom (patchesJson6902 k))
  /\ (Js.truthy (obj item) = false -> Js.truthy (JSONPatch item) = false ->
      Js.truthy (patch item) = true -> itemName item <> "__proto__" ->
      exists k, manifests !! layerOf item = Some k
                /\ itemName item ∈ kPatches k).
Proof.
  unfold synthesize, finalize.
  destruct (classifyAll _ (getResources app)) as [p1|] eqn:Hloop;
    [| discriminate].
  destruct (each _ (sa p1) contexts) as [sa'|] eqn:Hfin; [| discriminate].
  intros [= <- <-] Hin.
  destruct (classifyAll_registers _ _ p1 item Hloop Hin) as (H1 & H2 & H3).
  destruct (each_finalizeContext_keeps app contexts (sa p1) sa'
              (layerOf item) Hfin) as (E1 & E2 & E3).
  rewrite <- E1 in H1. rewrite <- E3 in H2. rewrite <- E2 in H3.
  unfold resourcesOf, patchesOf, patchesJSONOf in H1, H2, H3.
  rewrite lookup_fmap.
  destruct (layers sa' !! layerOf item) as [l|]; simpl.
  - split; [| split]; intros; eexists; (split; [reflexivity |]); simpl.
    + auto.
    + rewrite dom_fmap_L. eauto.
    + auto.
  - split; [| split]; intros; exfalso.
    + specialize (H1 ltac:(assumption) ltac:(assumption)). set_solver.
    + specialize (H2 ltac:(assumption) ltac:(assumption) tg
                    ltac:(assumption) ltac:(assumption)). set_solver.
    + specialize (H3 ltac:(assumption) ltac:(assumption)
                    ltac:(assumption) ltac:(assumption)). set_solver.
Qed.

Lemma synthesize_lists_every_item_witness :
  exists p manifests k,
    synthesize "solsa" [dev] sampleApp 0 = Some (p, manifests)
    /\ manifests !! "base" = Some k
    /\ "svc.yaml" ∈ kResources k.
Proof.
  destruct (proj1 (synthesize_lists_every_item "solsa" [dev] sampleApp 0 _ _
                     (mkItem (Js.Obj [("kind", Js.Str "Service")])
                        "svc.yaml" None Js.Undefined None Js.Undefined)
                     eq_refl ltac:(left)) eq_refl ltac:(discriminate))
    as (k & Hk & Hin).
  eexists _, _, k. split; [reflexivity |]. split; assumption.
Defined.

Lemma classifyAll_errors (items : list Item) (q q' : Process) :
  classifyAll q items = Some q' -> errors q' = errors q.
Proof.
  revert q; induction items as [|item rest IH]; intros q; simpl.
  - now intros [= <-].
  - destruct (classify q item) as [q1|] eqn:E; [| discriminate].
    intros Hrest. rewrite (IH q1 Hrest).
    apply (classify_layers q q1 item E).
Qed.

(** X12.  No manifest ever lists an entry called ['__proto__']: an item
    of that name changes the prototype of the entry table instead of
    becoming an entry, and is lost without a warning. *)
Theorem synthesize_never_lists_proto
  (outputRoot : string) (contexts : list Context.t) (app : App)
  (errors0 : nat) (p : Process) (manifests : gmap string Kustomization) :
  synthesize outputRoot contexts app errors0 = Some (p, manifests) ->
  errors p = errors0
  /\ forall key k,
      manifests !! key = Some k ->
      ("__proto__" ∉ kResources k)
      /\ ("__proto__" ∉ kPatches k)
      /\ ("__proto__" ∉ dom (patchesJson6902 k)).
Proof.
  intros Hrun.
  destruct (synthesize_invariant
              (fun _ l => Layer.resources l !! "__proto__" = None
                          /\ Layer.patches l !! "__proto__" = None
                          /\ Layer.patchesJSON l !! "__proto__" = None)
              outputRoot contexts app errors0 p manifests) as [-> Hn];
    [intros key; simpl; rewrite !lookup_empty; tauto | | | exact Hrun |].
  - intros item f key l _ Hf (H1 & H2 & H3). unfold updateOf in Hf.
    destruct (Js.truthy (obj item)).
    { injection Hf as <-. simpl. now rewrite assign_proto. }
    destruct (Js.truthy (JSONPatch item)).
    { destruct (JSONPatchTarget item) as [tg|]; [| discriminate].
      injection Hf as <-. simpl. now rewrite assign_proto. }
    destruct (Js.truthy (patch item)); [| discriminate].
    injection Hf as <-. simpl. now rewrite assign_proto.
  - intros c key l _ H. exact H.
  - split.
    + unfold synthesize in Hrun.
      destruct (classifyAll _ (getResources app)) as [p1|] eqn:Hloop;
        [| discriminate].
      destruct (finalize (sa p1) contexts app) as [[sa' m]|]; [| discriminate].
      injection Hrun as <- _. simpl.
      exact (classifyAll_errors _ _ _ Hloop).
    + intros key k. rewrite lookup_fmap.
      destruct (layers (sa p) !! key) as [l|] eqn:Hl; [| discriminate].
      intros [= <-]. simpl.
      destruct (Hn key l Hl) as (H1 & H2 & H3).
      rewrite dom_fmap_L, !not_elem_of_dom. tauto.
Qed.

Lemma synthesize_never_lists_proto_witness :
  exists p manifests,
    synthesize "solsa" []
      (mkApp None
         [mkItem (Js.Str "x") "__proto__" None Js.Undefined None Js.Undefined]
         []) 0 = Some (p, manifests)
    /\ errors p = 0%nat
    /\ forall key k,
        manifests !! key = Some k ->
        ("__proto__" ∉ kResources k)
        /\ ("__proto__" ∉ kPatches k)
        /\ ("__proto__" ∉ dom (patchesJson6902 k)).
Proof.
  do 2 eexists. split; [reflexivity |].
  exact (synthesize_never_lists_proto "solsa" []
           (mkApp None
              [mkItem (Js.Str "x") "__proto__" None Js.Undefined None
                 Js.Undefined] []) 0 _ _ eq_refl).
Defined.

(** *** The images of the manifests *)

(** The image lists while [finalize] walks the contexts [seen]. *)
Lemma each_finalizeContext_images (app : App) (contexts : list Context.t)
  (seen : list Context.t) (s s' : t) :
  each (finalizeContext app) s contexts = Some s' ->
  NoDup (Context.name <$> (seen ++ contexts)) ->
  (forall key l, layers s !! key = Some l ->
     (forall c, c ∈ seen -> Context.name c = key ->
                Layer.images l = finalizeImageRenames c (getImages app))
     /\ (key ∉ (Context.name <$> seen) -> Layer.images l = [])) ->
  forall key l, layers s' !! key = Some l ->
    (forall c, c ∈ seen ++ contexts -> Context.name c = key ->
               Layer.images l = finalizeImageRenames c (getImages app))
    /\ (key ∉ (Context.name <$> (seen ++ contexts)) -> Layer.images l = []).
Proof.
  revert seen s; induction contexts as [|c rest IH]; intros seen s; simpl.
  - intros [= <-] _ H. rewrite app_nil_r. exact H.
  - destruct (finalizeContext app s c) as [s1|] eqn:E; [| discriminate].
    intros Hrest Hnd Hs.
    replace (seen ++ c :: rest) with ((seen ++ [c]) ++ rest) in *
      by (rewrite <- app_assoc; reflexivity).
    apply (IH (seen ++ [c]) s1 Hrest Hnd).
    destruct (finalizeContext_layers app s s1 c E) as [_ ->].
    assert (Hc : Context.name c ∉ (Context.name <$> seen)).
    { rewrite !fmap_app in Hnd. apply NoDup_app in Hnd as [Hnd _].
      apply NoDup_app in Hnd as (_ & Hd & _).
      intros Hin. apply (Hd _ Hin). left. }
    intros key l. rewrite lookup_insert. case_decide as Hk.
    + subst key. intros [= <-]. simpl. split.
      * intros c' [Hin | ->%list_elem_of_singleton]%elem_of_app Hn;
          [| reflexivity].
        exfalso. apply Hc. rewrite <- Hn. now apply list_elem_of_fmap_2.
      * intros Hn. exfalso. apply Hn. rewrite fmap_app. apply elem_of_app.
        right. left.
    + intros Hl. destruct (Hs key l Hl) as [H1 H2]. split.
      * intros c' [Hin | ->%list_elem_of_singleton]%elem_of_app Hn;
          [now apply H1 | congruence].
      * intros Hn. apply H2. intros Hin. apply Hn. rewrite fmap_app.
        apply elem_of_app. now left.
Qed.

Lemma classifyAll_invariant (P : string -> Layer.t -> Prop)
  (items : list Item) (q q' : Process) :
  (forall key, P key (Layer.new key)) ->
  (forall item f key l, updateOf item = Some f -> P key l -> P key (f l)) ->
  (forall k l, layers (sa q) !! k = Some l -> P k l) ->
  classifyAll q items = Some q' ->
  forall k l, layers (sa q') !! k = Some l -> P k l.
Proof.
  intros Hnew Hitem. revert q; induction items as [|item rest IH];
    intros q H0; simpl.
  - now intros [= <-].
  - destruct (classify q item) as [q1|] eqn:E; [| discriminate].
    apply IH.
    destruct (classify_layers q q1 item E)
      as (_ & _ & [[_ ->] | (_ & f & Hf & ->)]); [exact H0 |].
    intros k l. rewrite lookup_insert. case_decide as Hk; [| apply H0].
    subst k. intros [= <-]. apply (Hitem item f _ _ Hf). unfold layerAt.
    destruct (layers (sa q) !! layerOf item) as [l0|] eqn:El; simpl;
      [eauto | apply Hnew].
Qed.

(** X13.  When the contexts have distinct names, the manifest of each
    context layer carries the image rules [finalizeImageRenames] computes
    for that context, and the manifest of every other layer (the base
    layer, unless a context is called [base]) carries none. *)
Theorem synthesize_images
  (outputRoot : string) (contexts : list Context.t) (app : App)
  (errors0 : nat) (p : Process) (manifests : gmap string Kustomization) :
  synthesize outputRoot contexts app errors0 = Some (p, manifests) ->
  NoDup (Context.name <$> contexts) ->
  (forall c, c ∈ contexts ->
     exists k, manifests !! Context.name c = Some k
               /\ kImages k = finalizeImageRenames c (getImages app))
  /\ (forall key k, manifests !! key = Some k ->
        key ∉ (Context.name <$> contexts) -> kImages k = []).
Proof.
  intros Hrun Hnd. pose proof (synthesize_dom _ _ _ _ _ _ Hrun) as Hdom.
  unfold synthesize, finalize in Hrun.
  destruct (classifyAll _ (getResources app)) as [p1|] eqn:Hloop;
    [| discriminate].
  destruct (each _ (sa p1) contexts) as [sa'|] eqn:Hfin; [| discriminate].
  injection Hrun as <- <-.
  assert (H1 : forall k l, layers (sa p1) !! k = Some l -> Layer.images l = []).
  { eapply (classifyAll_invariant (fun _ l => Layer.images l = []));
      [reflexivity | | | exact Hloop].
    - intros item f key l Hf <-. apply (updateOf_keeps item f l Hf).
    - intros k l. unfold new. simpl.
      now intros [<- <-]%lookup_singleton_Some. }
  pose proof (each_finalizeContext_images app contexts [] (sa p1) sa' Hfin Hnd)
    as Himg.
  simpl in Himg. split.
  - intros c Hc.
    assert (Hin : Context.name c ∈ dom (kustom app <$> layers sa')).
    { rewrite Hdom. apply list_elem_of_fmap_2 with (f := Context.name) in Hc.
      set_solver. }
    rewrite dom_fmap_L in Hin. apply elem_of_dom in Hin as [l Hl].
    exists (kustom app l). rewrite lookup_fmap, Hl.
    split; [reflexivity |]. simpl.
    refine (proj1 (Himg _ _ _ Hl) c Hc eq_refl).
    intros key l0 Hl0. split; [intros c0 Hc0; inversion Hc0 |].
    intros _. eapply H1; eassumption.
  - intros key k. rewrite lookup_fmap.
    destruct (layers sa' !! key) as [l|] eqn:Hl; [| discriminate].
    intros [= <-] Hn. simpl.
    refine (proj2 (Himg _ _ _ Hl) Hn).
    intros key0 l0 Hl0. split; [intros c0 Hc0; inversion Hc0 |].
    intros _. eapply H1; eassumption.
Qed.

Lemma synthesize_images_witness :
  exists p manifests,
    synthesize "solsa" [dev; prod] sampleApp 0 = Some (p, manifests)
    /\ (forall c, c ∈ [dev; prod] ->
          exists k, manifests !! Context.name c = Some k
                    /\ kImages k
                       = finalizeImageRenames c (getImages sampleApp))
    /\ (forall key k, manifests !! key = Some k ->
          key ∉ (Context.name <$> [dev; prod]) -> kImages k = []).
Proof.
  do 2 eexists. split; [reflexivity |].
  refine (synthesize_images "solsa" [dev; prod] sampleApp 0 _ _ eq_refl _).
  apply NoDup_cons. split.
  - intros H. apply list_elem_of_singleton in H. discriminate H.
  - apply NoDup_singleton.
Defined.

(** *** Lookups and writes *)

(** X17.  [getLayer] creates a layer at most once: asked again for the
    same name it returns the same layer and leaves the registry alone, and
    it never touches the layers registered under other names. *)
Theorem getLayer_idempotent (s : t) (key : string) :
  getLayer (fst (getLayer s key)) key
    = (fst (getLayer s key), snd (getLayer s key))
  /\ (forall other, other <> key ->
        layers (fst (getLayer s key)) !! other = layers s !! other)
  /\ (forall l, layers s !! key = Some l -> getLayer s key = (s, Some l)).
Proof.
  unfold getLayer. split; [| split].
  - destruct (layers s !! key) as [l|] eqn:E; cbn [fst snd];
      [now rewrite E |].
    destruct (Js.inherited key) eqn:Hi; cbn [fst snd layers].
    + now rewrite E.
    + now rewrite lookup_insert_eq.
  - intros other Hne.
    destruct (layers s !! key) as [l|]; cbn [fst]; [reflexivity |].
    destruct (Js.inherited key); cbn [fst layers]; [reflexivity |].
    now rewrite lookup_insert_ne.
  - now intros l ->.
Qed.

Lemma getLayer_idempotent_witness :
  getLayer (new "solsa") "base" = (new "solsa", Some (Layer.new "base")).
Proof.
  exact (proj2 (proj2 (getLayer_idempotent (new "solsa") "base"))
           (Layer.new "base") eq_refl).
Defined.

(** The resource registered under a name after one more item. *)
Lemma classify_resource_lookup (q q' : Process) (item : Item)
  (key fname : string) :
  classify q item = Some q' ->
  resourcesOf (sa q') key !! fname
  = if decide (Js.truthy (obj item) = true /\ layerOf item = key
               /\ itemName item = fname /\ fname <> "__proto__")
    then Some (obj item)
    else resourcesOf (sa q) key !! fname.
Proof.
  intros E.
  destruct (observed_at (sa q) key) as (-> & _ & _).
  destruct (observed_at (sa q') key) as (-> & _ & _).
  destruct (classify_layers q q' item E)
    as (_ & _ & [[Hr Hl] | (_ & f & Hf & Hl)]).
  - unfold registers in Hr. apply orb_false_iff in Hr as [Hr _].
    apply orb_false_iff in Hr as [H1 _].
    destruct (decide _) as [(H & _) | _]; [congruence |].
    unfold layerAt. now rewrite Hl.
  - rewrite (layerAt_insert (sa q) (sa q') _ _ key Hl).
    unfold updateOf in Hf.
    destruct (decide (Js.truthy (obj item) = true /\ _))
      as [(H1 & H2 & H3 & H4) | Hd].
    + rewrite H1 in Hf. injection Hf as <-.
      rewrite decide_True by (now symmetry). simpl.
      unfold Js.assign.
      destruct (String.eqb (itemName item) "__proto__") eqn:Hp;
        [apply String.eqb_eq in Hp; congruence |].
      rewrite H3. apply lookup_insert_eq.
    + destruct (decide (key = layerOf item)) as [Hk | Hk]; [| reflexivity].
      subst key.
      destruct (Js.truthy (obj item)) eqn:H1.
      * injection Hf as <-. simpl. unfold Js.assign.
        destruct (String.eqb (itemName item) "__proto__") eqn:Hp;
          [reflexivity |].
        apply String.eqb_neq in Hp. apply lookup_insert_ne.
        intros Hn. apply Hd. repeat split; congruence.
      * destruct (Js.truthy (JSONPatch item)).
        -- destruct (JSONPatchTarget item); [| discriminate].
           now injection Hf as <-.
        -- destruct (Js.truthy (patch item)); [| discriminate].
           now injection Hf as <-.
Qed.

(** X18.  Within a layer the last resource registered under a name
    wins: after the loop, the object held for the name of an item is the
    item's own unless a later item registers a resource under the same
    name in the same layer. *)
Theorem classifyAll_last_write_wins
  (before after : list Item) (item : Item) (q q' : Process) :
  classifyAll q (before ++ item :: after) = Some q' ->
  Js.truthy (obj item) = true ->
  itemName item <> "__proto__" ->
  (forall later, later ∈ after ->
     Js.truthy (obj later) = true -> layerOf later = layerOf item ->
     itemName later <> itemName item) ->
  resourcesOf (sa q') (layerOf item) !! itemName item = Some (obj item).
Proof.
  revert q; induction before as [|b before IH]; intros q; simpl.
  - destruct (classify q item) as [q1|] eqn:E; [| discriminate].
    intros Hrest Ht Hn Hlater.
    assert (H1 : resourcesOf (sa q1) (layerOf item) !! itemName item
                 = Some (obj item)).
    { rewrite (classify_resource_lookup q q1 item _ _ E).
      now rewrite decide_True. }
    clear E. revert q1 Hrest H1 Hlater.
    induction after as [|a after IHa]; intros q1; simpl.
    + now intros [= <-].
    + destruct (classify q1 a) as [q2|] eqn:Ea; [| discriminate].
      intros Hrest H1 Hlater. apply (IHa q2 Hrest).
      * rewrite (classify_resource_lookup q1 q2 a _ _ Ea).
        rewrite decide_False; [exact H1 |].
        intros (Hta & Hla & Hna & _).
        exact (Hlater a ltac:(left) Hta Hla Hna).
      * intros later Hin. apply Hlater. now right.
  - destruct (classify q b) as [q1|]; [| discriminate]. apply IH.
Qed.

Lemma classifyAll_last_write_wins_witness :
  exists q',
    classifyAll (mkProcess 0 (new "solsa"))
      ([mkItem (Js.Str "old") "svc.yaml" None Js.Undefined None Js.Undefined]
       ++ mkItem (Js.Str "new") "svc.yaml" None Js.Undefined None Js.Undefined
       :: [emptyItem]) = Some q'
    /\ resourcesOf (sa q') "base" !! "svc.yaml" = Some (Js.Str "new").
Proof.
  eexists. split; [reflexivity |].
  refine (classifyAll_last_write_wins
            [mkItem (Js.Str "old") "svc.yaml" None Js.Undefined None
               Js.Undefined]
            [emptyItem]
            (mkItem (Js.Str "new") "svc.yaml" None Js.Undefined None
               Js.Undefined)
            (mkProcess 0 (new "solsa")) _ eq_refl eq_refl _ _).
  - discriminate.
  - intros later Hin%list_elem_of_singleton Ht. subst later. discriminate Ht.
Defined.

(** *** [yamlCommand] as a whole *)

(** X14.  [yamlCommand] counts no warning beyond the one of its first
    lines; with [--output] it packs the tree, otherwise it runs
    [kustomize build] on the layer named by the current context, [base]
    when there is none; that layer has a manifest exactly when it is
    [base], the layer of a context of the configuration, or the layer of
    a registered item. *)
Theorem yamlCommand_result
  (output : option string) (outputRoot : string) (config : Config.t)
  (app : App) (errors0 errors' : nat)
  (manifests : gmap string Kustomization) (action : Action) :
  yamlCommand output outputRoot config app errors0
    = Some (errors', manifests, action) ->
  errors' = yamlWarnings output config errors0
  /\ (errors0 <= errors' <= errors0 + 1)%nat
  /\ action = (if truthyOpt output then Tar (default "" output)
               else KustomizeBuild (builtLayer config))
  /\ (truthyOpt (Config.context config) = false ->
      builtLayer config = "base")
  /\ (is_Some (manifests !! builtLayer config) <->
      builtLayer config = "base"
      \/ builtLayer config ∈ (Context.name <$> Config.contexts config)
      \/ builtLayer config
         ∈ (layerOf <$> filter (fun i => registers i = true)
                          (getResources app))).
Proof.
  unfold yamlCommand.
  destruct (synthesize _ _ _ _) as [[p m]|] eqn:Hrun; [| discriminate].
  intros [= <- <- <-].
  pose proof (synthesize_dom _ _ _ _ _ _ Hrun) as Hdom.
  assert (He : errors p = yamlWarnings output config errors0).
  { unfold synthesize in Hrun.
    destruct (classifyAll _ (getResources app)) as [p1|] eqn:Hloop;
      [| discriminate].
    destruct (finalize (sa p1) (Config.contexts config) app)
      as [[sa' m']|]; [| discriminate].
    injection Hrun as <- _. simpl.
    exact (classifyAll_errors _ _ _ Hloop). }
  split; [exact He |]. split.
  { rewrite He. unfold yamlWarnings.
    repeat match goal with |- context [if ?b then _ else _] => destruct b end;
      lia. }
  split.
  { unfold truthyOpt. destruct output as [out|]; [| reflexivity].
    simpl. now destruct (truthy out). }
  split.
  { unfold builtLayer, truthyOpt.
    destruct (Config.context config) as [c|]; [| reflexivity].
    now intros ->. }
  rewrite <- elem_of_dom, Hdom, !elem_of_union, !elem_of_list_to_set,
    elem_of_singleton.
  tauto.
Qed.

Lemma yamlCommand_result_witness :
  exists manifests,
    yamlCommand None "solsa" (Config.mk [dev; prod] (Some "prod")) sampleApp 0
      = Some (0%nat, manifests, KustomizeBuild "prod")
    /\ is_Some (manifests !! "prod").
Proof.
  eexists. split; [reflexivity |].
  refine (proj2 (proj2 (proj2 (proj2 (proj2
            (yamlCommand_result None "solsa"
               (Config.mk [dev; prod] (Some "prod")) sampleApp 0 0 _
               (KustomizeBuild "prod") eq_refl))))) _).
  right. left. right. left.
Defined.

End RegistryFacts.

(** ** More on [init] *)

Lemma lookup_storeField_same (key : string) (v : Js.value)
  (fields : list (string * Js.value)) :
  Js.lookupField key (Js.storeField key v fields) = Some v.
Proof.
  induction fields as [|[k w] rest IH]; simpl.
  - now rewrite String.eqb_refl.
  - destruct (String.eqb k key) eqn:E; simpl; rewrite E; [reflexivity | exact IH].
Qed.

Lemma lookup_storeField_other (key key' : string) (v : Js.value)
  (fields : list (string * Js.value)) :
  key <> key' ->
  Js.lookupField key' (Js.storeField key v fields) = Js.lookupField key' fields.
Proof.
  intros Hne. induction fields as [|[k w] rest IH]; simpl.
  - apply String.eqb_neq in Hne. now rewrite Hne.
  - destruct (String.eqb k key) eqn:E; simpl.
    + apply String.eqb_eq in E. subst k.
      apply String.eqb_neq in Hne. now rewrite Hne.
    + destruct (String.eqb k key'); [reflexivity | exact IH].
Qed.

(** Reading a property after a write to it or to another one. *)
Lemma get_set_same (config config' : Js.value) (key : string) (v : Js.value)
  (elems : list Js.value) (props : list (string * Js.value)) :
  Js.get config "contexts" = Some (Js.Arr elems props) ->
  Js.set config key v = Some config' ->
  Js.get config' key = Some v.
Proof.
  destruct config; try discriminate; simpl;
    intros _ [= <-]; simpl; now rewrite lookup_storeField_same.
Qed.

Lemma get_set_other (config config' : Js.value) (key key' : string)
  (v : Js.value) :
  key <> key' ->
  Js.set config key v = Some config' ->
  Js.get config' key' = Js.get config key'.
Proof.
  intros Hne.
  destruct config; try discriminate; simpl; intros [= <-]; simpl;
    try reflexivity; now rewrite lookup_storeField_other.
Qed.

Lemma findContext_found (context : string) (elems : list Js.value)
  (hit : Js.value) :
  findContext context elems = Some hit ->
  Js.truthy hit = true ->
  hit ∈ elems /\ Js.get hit "name" = Some (Js.Str context).
Proof.
  induction elems as [|e rest IH]; simpl.
  - intros [= <-]. discriminate.
  - destruct (Js.get e "name") as [name|] eqn:Hn; [| discriminate].
    destruct (Js.strictEqualsString name context) eqn:Heq.
    + intros [= <-] _. split; [left |].
      destruct name; try discriminate. simpl in Heq.
      apply String.eqb_eq in Heq. now subst.
    + intros H Ht. destruct (IH H Ht) as [Hin Hg]. split; [now right | exact Hg].
Qed.

(** X15.  [init] adds at most two warnings and never takes one away; when
    it adds none, the configuration it returns has a list of contexts. *)
Theorem init_warnings
  (argvContext kubectl : option string) (file : LoadResult) (errors0 : nat) :
  (errors0 <= snd (init argvContext kubectl file errors0) <= errors0 + 2)%nat
  /\ (snd (init argvContext kubectl file errors0) = errors0 ->
      exists elems,
        contextsOf (fst (init argvContext kubectl file errors0)) = Some elems
        /\ exists doc, file = Document doc /\ contextsOf doc = Some elems).
Proof.
  unfold init, currentContext.
  assert (Hload : forall context e,
             match loadConfig context file e with
             | Normal config e' =>
                 (e <= e' <= e + 1)%nat
                 /\ (e' = e ->
                     exists elems,
                       contextsOf config = Some elems
                       /\ exists doc,
                           file = Document doc /\ contextsOf doc = Some elems)
             | Throws _ e' => e' = e
             end).
  { intros context e. unfold loadConfig.
    destruct file as [| |doc]; [reflexivity | reflexivity |].
    assert (Hset : forall x k y,
               Js.get doc "contexts" = Some x ->
               exists c, Js.set doc k y = Some c).
    { intros x k y. destruct doc; simpl; try discriminate; eauto. }
    destruct (Js.get doc "contexts") as [[| |b|n|s|elems props|fields]|] eqn:Hg;
      [| | | | | | | reflexivity].
    1-5, 7:
      destruct (Hset _ "contexts" (Js.Arr [] []) eq_refl) as [c ->];
      split; [lia | intros; lia].
    assert (Hdoc : exists elems0,
               contextsOf doc = Some elems0
               /\ exists d, Document doc = Document d
                            /\ contextsOf d = Some elems0).
    { exists elems. unfold contextsOf. rewrite Hg.
      split; [reflexivity |]. exists doc. split; [reflexivity |].
      now rewrite Hg. }
    destruct context as [ctx|]; [| split; [lia | intros _; exact Hdoc]].
    destruct (truthy ctx); [| split; [lia | intros _; exact Hdoc]].
    destruct (findContext ctx elems) as [hit|]; [| reflexivity].
    destruct (Js.truthy hit); simpl; [| split; [lia | intros; lia]].
    destruct (Hset _ "context" (Js.Str ctx) eq_refl) as [config Hs].
    rewrite Hs. split; [lia |]. intros _. exists elems. split.
    - unfold contextsOf.
      rewrite (get_set_other doc config "context" "contexts" _
                 ltac:(discriminate) Hs), Hg.
      reflexivity.
    - exists doc. split; [reflexivity |]. unfold contextsOf. now rewrite Hg. }
  destruct (truthyOpt argvContext); [| destruct kubectl as [out|]].
  - specialize (Hload argvContext errors0).
    destruct (loadConfig argvContext file errors0); simpl;
      [destruct Hload as [H1 H2]; split; [lia | exact H2] |].
    subst. split; [lia | intros; lia].
  - specialize (Hload (Some out) errors0).
    destruct (loadConfig (Some out) file errors0); simpl;
      [destruct Hload as [H1 H2]; split; [lia | exact H2] |].
    subst. split; [lia | intros; lia].
  - specialize (Hload None (errors0 + 1)%nat).
    destruct (loadConfig None file (errors0 + 1)); simpl.
    + destruct Hload as [H1 H2]. split; [lia | intros; lia].
    + subst. split; [lia | intros; lia].
Qed.

Lemma init_warnings_witness :
  exists elems,
    contextsOf (fst (init (Some "dev") None (Document sampleDocument) 0))
      = Some elems
    /\ exists doc, Document sampleDocument = Document doc
                   /\ contextsOf doc = Some elems.
Proof.
  exact (proj2 (init_warnings (Some "dev") None (Document sampleDocument) 0)
           eq_refl).
Defined.

(** X16.  [init] selects a current context only when the file lists it:
    if the document has no [context] entry of its own and the configuration
    returned has one, it is the name given on the command line (or by
    [kubectl]) and some element of the document's [contexts] has that
    name. *)
Theorem init_selects_listed_context
  (argvContext kubectl : option string) (doc : Js.value) (errors0 : nat)
  (v : Js.value) :
  Js.get doc "context" = Some Js.Undefined ->
  Js.get (fst (init argvContext kubectl (Document doc) errors0)) "context"
    = Some v ->
  v <> Js.Undefined ->
  exists c elems props e,
    v = Js.Str c
    /\ fst (currentContext argvContext kubectl errors0) = Some c
    /\ Js.get doc "contexts" = Some (Js.Arr elems props)
    /\ e ∈ elems
    /\ Js.get e "name" = Some (Js.Str c).
Proof.
  intros Hdoc. unfold init.
  destruct (currentContext argvContext kubectl errors0) as [context e0] eqn:Hc.
  simpl. unfold loadConfig.
  assert (Hno : Js.get doc "context" = Some v -> v <> Js.Undefined -> False).
  { rewrite Hdoc. intros [= <-] H. now apply H. }
  assert (Hset : forall c,
             Js.set doc "contexts" (Js.Arr [] []) = Some c ->
             Js.get c "context" = Some v -> v <> Js.Undefined -> False).
  { intros c Hs. rewrite (get_set_other doc c "contexts" "context" _
                            ltac:(discriminate) Hs). exact Hno. }
  destruct (Js.get doc "contexts") as [[| |b|n|s|elems props|fields]|] eqn:Hg;
    simpl; try (intros H1 H2; exfalso; now apply Hno);
    try (destruct (Js.set doc "contexts" (Js.Arr [] [])) as [c|] eqn:Hs; simpl;
         intros H1 H2; exfalso; [now apply (Hset c) | now apply Hno]).
  destruct context as [ctx|]; simpl;
    [| intros H1 H2; exfalso; now apply Hno].
  destruct (truthy ctx); simpl; [| intros H1 H2; exfalso; now apply Hno].
  destruct (findContext ctx elems) as [hit|] eqn:Hf; simpl;
    [| intros H1 H2; exfalso; now apply Hno].
  destruct (Js.truthy hit) eqn:Ht; simpl;
    [| intros H1 H2; exfalso; now apply Hno].
  destruct (Js.set doc "context" (Js.Str ctx)) as [config|] eqn:Hs; simpl;
    [| intros H1 H2; exfalso; now apply Hno].
  rewrite (get_set_same doc config "context" _ elems props Hg Hs).
  intros [= <-] _.
  destruct (findContext_found ctx elems hit Hf Ht) as [Hin Hname].
  exists ctx, elems, props, hit. tauto.
Qed.

Lemma init_selects_listed_context_witness :
  exists c elems props e,
    Js.Str "dev" = Js.Str c
    /\ fst (currentContext None (Some "dev") 0) = Some c
    /\ Js.get sampleDocument "contexts" = Some (Js.Arr elems props)
    /\ e ∈ elems
    /\ Js.get e "name" = Some (Js.Str c).
Proof.
  refine (init_selects_listed_context None (Some "dev") sampleDocument 0
            (Js.Str "dev") eq_refl eq_refl _).
  discriminate.
Defined.

(** X19.  A configuration file that holds a mapping without a list under
    [contexts] is repaired: [init] returns the mapping with [contexts] set
    to the empty list, the other entries as they were, and counts one
    warning for it. *)
Theorem init_repairs_mapping
  (argvContext kubectl : option string) (errors0 : nat)
  (fields : list (string * Js.value)) :
  (forall elems props,
      Js.lookupField "contexts" fields <> Some (Js.Arr elems props)) ->
  let result := init argvContext kubectl (Document (Js.Obj fields)) errors0 in
  contextsOf (fst result) = Some []
  /\ snd result = (snd (currentContext argvContext kubectl errors0) + 1)%nat
  /\ forall key, key <> "contexts" ->
                 Js.get (fst result) key = Js.get (Js.Obj fields) key.
Proof.
  intros Hno result. subst result.
  rewrite (init_mapping_without_contexts argvContext kubectl errors0 fields Hno).
  simpl. split; [| split; [reflexivity |]].
  - unfold contextsOf. simpl. now rewrite lookup_storeField_same.
  - intros key Hk. rewrite lookup_storeField_other by congruence.
    reflexivity.
Qed.

Lemma init_repairs_mapping_witness :
  contextsOf (fst (init None (Some "dev")
                     (Document (Js.Obj [("contexts", Js.Str "dev");
                                        ("note", Js.Num 1)])) 0))
  = Some []
  /\ snd (init None (Some "dev")
            (Document (Js.Obj [("contexts", Js.Str "dev");
                               ("note", Js.Num 1)])) 0)
     = (snd (currentContext None (Some "dev") 0) + 1)%nat
  /\ forall key, key <> "contexts" ->
                 Js.get (fst (init None (Some "dev")
                                (Document (Js.Obj [("contexts", Js.Str "dev");
                                                   ("note", Js.Num 1)])) 0))
                   key
                 = Js.get (Js.Obj [("contexts", Js.Str "dev");
                                   ("note", Js.Num 1)]) key.
Proof.
  refine (init_repairs_mapping None (Some "dev") 0
            [("contexts", Js.Str "dev"); ("note", Js.Num 1)] _).
  intros elems props. discriminate.
Defined.

(** ** The base references of the manifests *)

Module BaseFacts.
Import SolsaArchiver.

#[local] Set Warnings "-clear-no-such-hyp".

(** The base lists while [finalize] walks the contexts, [seen] being the
    names of those already visited: one reference for each of them, none
    elsewhere. *)
Lemma each_finalizeContext_bases (app : App) (contexts : list Context.t)
  (seen : list string) (s s' : t) :
  each (finalizeContext app) s contexts = Some s' ->
  NoDup (seen ++ (Context.name <$> contexts)) ->
  (forall key l, layers s !! key = Some l ->
     (key ∈ seen -> Layer.bases l = [baseRef])
     /\ (key ∉ seen -> Layer.bases l = [])) ->
  forall key l, layers s' !! key = Some l ->
    (key ∈ seen ++ (Context.name <$> contexts) -> Layer.bases l = [baseRef])
    /\ (key ∉ seen ++ (Context.name <$> contexts) -> Layer.bases l = []).
Proof.
  revert seen s; induction contexts as [|c rest IH]; intros seen s; simpl.
  - intros [= <-] _ H. rewrite app_nil_r. exact H.
  - destruct (finalizeContext app s c) as [s1|] eqn:E; [| discriminate].
    intros Hrest Hnd Hs.
    assert (Hnd' : NoDup ((seen ++ [Context.name c])
                            ++ (Context.name <$> rest)))
      by (rewrite <- app_assoc; exact Hnd).
    assert (Hc : Context.name c ∉ seen).
    { apply NoDup_app in Hnd' as [Hnd' _].
      apply NoDup_app in Hnd' as (_ & Hd & _).
      intros Hin. apply (Hd _ Hin). left. }
    assert (H1 : forall key l, layers s1 !! key = Some l ->
               (key ∈ seen ++ [Context.name c] -> Layer.bases l = [baseRef])
               /\ (key ∉ seen ++ [Context.name c] -> Layer.bases l = [])).
    { destruct (RegistryFacts.finalizeContext_layers app s s1 c E) as [_ ->].
      intros key l. rewrite lookup_insert. case_decide as Hk.
      + subst key. intros [= <-]. simpl. split.
        * intros _. unfold layerAt.
          destruct (layers s !! Context.name c) as [l0|] eqn:El; simpl;
            [| reflexivity].
          now rewrite (proj2 (Hs _ _ El) Hc).
        * intros Hn. exfalso. apply Hn, elem_of_app. right. left.
      + intros Hl. destruct (Hs key l Hl) as [H1 H2]. split.
        * intros [Hin | Hin%list_elem_of_singleton]%elem_of_app;
            [now apply H1 | congruence].
        * intros Hn. apply H2. intros Hin. apply Hn, elem_of_app. now left. }
    intros key l Hl.
    pose proof (IH (seen ++ [Context.name c]) s1 Hrest Hnd' H1 key l Hl)
      as Hkey.
    rewrite <- app_assoc in Hkey. exact Hkey.
Qed.

(** C7, as amended.  Whenever [finalize] has run to completion over a
    configuration whose contexts have pairwise distinct names, none of
    them [base], the manifest of every context layer has exactly the one
    base reference ['./../base'], and the manifest of the base layer,
    like that of every layer that is not a context's, has none. *)
Theorem finalize_one_base_per_context
  (outputRoot : string) (contexts : list Context.t) (app : App)
  (errors0 : nat) (p : Process) (manifests : gmap string Kustomization) :
  synthesize outputRoot contexts app errors0 = Some (p, manifests) ->
  NoDup (Context.name <$> contexts) ->
  "base" ∉ (Context.name <$> contexts) ->
  (forall context, context ∈ contexts ->
     exists k, manifests !! Context.name context = Some k
               /\ kBases k = ["./../base"])
  /\ (exists k, manifests !! "base" = Some k /\ kBases k = [])
  /\ (forall key k, manifests !! key = Some k ->
        key ∉ (Context.name <$> contexts) -> kBases k = []).
Proof.
  intros Hrun Hnd Hbase.
  pose proof (RegistryFacts.synthesize_dom _ _ _ _ _ _ Hrun) as Hdom.
  unfold synthesize, finalize in Hrun.
  destruct (classifyAll _ (getResources app)) as [p1|] eqn:Hloop;
    [| discriminate].
  destruct (each _ (sa p1) contexts) as [sa'|] eqn:Hfin; [| discriminate].
  injection Hrun as <- <-.
  assert (H1 : forall k l, layers (sa p1) !! k = Some l -> Layer.bases l = []).
  { eapply (RegistryFacts.classifyAll_invariant
              (fun _ l => Layer.bases l = []));
      [reflexivity | | | exact Hloop].
    - intros item f key l Hf Hl.
      now rewrite (proj1 (proj2 (RegistryFacts.updateOf_keeps item f l Hf))).
    - intros k l. unfold new. simpl.
      now intros [<- <-]%lookup_singleton_Some. }
  assert (Hb : forall key l, layers sa' !! key = Some l ->
             (key ∈ (Context.name <$> contexts) -> Layer.bases l = [baseRef])
             /\ (key ∉ (Context.name <$> contexts) -> Layer.bases l = [])).
  { apply (each_finalizeContext_bases app contexts [] (sa p1) sa' Hfin Hnd).
    intros key l Hl. split; [intros Hin; inversion Hin |].
    intros _. eapply H1; eassumption. }
  assert (Hex : forall key, key ∈ dom (kustom app <$> layers sa') ->
             exists l, layers sa' !! key = Some l
                       /\ (kustom app <$> layers sa') !! key
                          = Some (kustom app l)).
  { intros key Hin. rewrite dom_fmap_L in Hin.
    apply elem_of_dom in Hin as [l Hl]. exists l.
    now rewrite lookup_fmap, Hl. }
  split; [| split].
  - intros c Hc.
    apply list_elem_of_fmap_2 with (f := Context.name) in Hc.
    destruct (Hex (Context.name c)) as (l & Hl & Hk);
      [rewrite Hdom; set_solver |].
    exists (kustom app l). split; [exact Hk |]. simpl.
    exact (proj1 (Hb _ _ Hl) Hc).
  - destruct (Hex "base") as (l & Hl & Hk); [rewrite Hdom; set_solver |].
    exists (kustom app l). split; [exact Hk |]. simpl.
    exact (proj2 (Hb _ _ Hl) Hbase).
  - intros key k. rewrite lookup_fmap.
    destruct (layers sa' !! key) as [l|] eqn:Hl; [| discriminate].
    intros [= <-] Hn. simpl. exact (proj2 (Hb _ _ Hl) Hn).
Qed.

Lemma finalize_one_base_per_context_witness :
  exists p manifests,
    synthesize "solsa" [dev; prod] sampleApp 0 = Some (p, manifests)
    /\ (forall context, context ∈ [dev; prod] ->
          exists k, manifests !! Context.name context = Some k
                    /\ kBases k = ["./../base"])
    /\ (exists k, manifests !! "base" = Some k /\ kBases k = [])
    /\ (forall key k, manifests !! key = Some k ->
          key ∉ (Context.name <$> [dev; prod]) -> kBases k = []).
Proof.
  do 2 eexists. split; [reflexivity |].
  refine (finalize_one_base_per_context "solsa" [dev; prod] sampleApp 0
            _ _ eq_refl _ _).
  - apply NoDup_cons. split.
    + intros H. apply list_elem_of_singleton in H. discriminate H.
    + apply NoDup_singleton.
  - intros H. apply elem_of_cons in H as [H | H]; [discriminate H |].
    apply list_elem_of_singleton in H. discriminate H.
Defined.

End BaseFacts.
